(** * The node metrics adapter (KibanaMetricsAdapter)

    A shallow embedding of [KibanaMetricsAdapter.getMetrics] and
    [KibanaMetricsAdapter.makeTSVBRequest]: the node existence gate, the
    per-metric request tasks, the [Promise.all] join over them and the
    reshaping of the raw TSVB responses.

    Asynchrony is modelled by explicit state passing.  Every call of
    [makeTSVBRequest] is a task that runs up to its next [await]; the
    environment (backend and event loop) is a list of replies, each of which
    resumes one task.  Calls to the collaborators that are imported by the
    adapter ([checkValidNode], [calculateMetricInterval],
    [framework.makeTSVBRequest]) are recorded in a trace, in program order. *)

From Stdlib Require Import ZArith QArith.
From stdpp Require Import base list strings sorting.

Close Scope Q_scope.

(** ** Settled promises and thrown values *)

(** [new Error(message)]: every throw of the adapter is an [Error] that carries
    a message, and so is a failure reported by a collaborator.  [TypeError] is
    what the runtime throws on a property read of [undefined]. *)
Inductive error :=
| Error (message : string)
| TypeError (message : string).

Inductive outcome (A : Type) :=
| Fulfilled (value : A)
| Rejected (reason : error).
Arguments Fulfilled {A} value.
Arguments Rejected {A} reason.

(** A promise is pending ([None]) or settled. *)
Definition promise (A : Type) := option (outcome A).

(** [xs.map(f)] where [f] may throw: elements are visited from left to right
    and the first throw aborts the whole map. *)
Fixpoint map_throwing {A B} (f : A → outcome B) (xs : list A) : outcome (list B) :=
  match xs with
  | [] => Fulfilled []
  | x :: xs' =>
      match f x with
      | Rejected e => Rejected e
      | Fulfilled y =>
          match map_throwing f xs' with
          | Rejected e => Rejected e
          | Fulfilled ys => Fulfilled (y :: ys)
          end
      end
  end.

(** ** Data model *)

(** JavaScript truthiness of the strings the adapter tests. *)
Definition truthy_string (s : string) : bool := negb (String.eqb s "").
Definition truthy_opt_string (o : option string) : bool :=
  match o with Some s => truthy_string s | None => false end.

(** A JavaScript number, by the two things the adapter does with one:
    [number_text] is the text a template literal prints for it (for instance
    "30", "0.5", "1e+21", "NaN") and [number_truthy] is what a condition
    makes of it (false for 0, -0 and NaN only). *)
Record number := { number_text : string; number_truthy : bool }.

(** Modelled from the spec: what the interval calculator derives, a minimum
    bucket width in seconds.  It is a positive number, given by the text a
    template literal prints for it. *)
Record width := { width_text : string }.

(** A positive number is truthy. *)
Definition number_of_width (w : width) : number :=
  {| number_text := width_text w; number_truthy := true |}.

Record NodeIds := { nodeId : string; cloudId : option string }.

Record Timerange := { from : Z; to : Z; interval : string }.

Record Fields := { fields_timestamp : string }.

Record SourceConfiguration := {
  metricAlias : string;
  logAlias : string;
  fields : Fields
}.

(** [InfraMetricsRequestOptions]. *)
Record Options := {
  nodeType : string;
  nodeIds : NodeIds;
  metrics : list string;
  timerange : Timerange;
  sourceConfiguration : SourceConfiguration
}.

(** The TSVB model a catalog entry creates: the slots the adapter reads or
    writes.  The series templates of a model are opaque to the adapter and
    are carried as [model_body]. *)
Record TSVBModel := {
  model_id : string;
  requires : list string;
  index_pattern : string;
  model_interval : string;
  time_field : string;
  id_type : option string;
  map_field_to : option string;
  model_body : list string
}.

(** [TSVBMetricModelCreator]: timestamp field, index pattern, interval. *)
Definition TSVBMetricModelCreator := string → string → string → TSVBModel.

(** One backend series: [{ id, label, data: [[timestamp, value], ...] }]. *)
Record RawSeries := {
  raw_id : string;
  raw_label : string;
  raw_data : list (Z * Q)
}.

Record Panel := { panel_series : list RawSeries }.

(** A raw TSVB response: the own keys of the response object in the order
    [Object.keys] enumerates them, each with the value stored under it.  The
    payloads under the reserved keys are never read by the adapter. *)
Definition TSVBResponse := list (string * Panel).

Record Point := { timestamp : Z; value : Q }.

Record Series := {
  series_id : string;
  series_label : string;
  series_data : list Point
}.

(** [NodeDetailsMetricData]. *)
Record NodeDetailsMetricData := {
  metric_id : string;
  metric_series : list Series
}.

(** What the adapter imports: the model catalog [metrics.tsvb], the runtime
    type [InventoryMetricRT] and [findInventoryFields] (its [id] field). *)
Record Imports := {
  tsvb : string → option TSVBMetricModelCreator;
  InventoryMetricRT_is : string → bool;
  findInventoryFields_id : string → Fields → string
}.

(** ** Reshaping a raw response ([getMetrics], the [then] after the join) *)

Definition reserved_keys : list string := ["type"; "uiRestrictions"].

(** [Object.keys(result)]. *)
Definition keys (result : TSVBResponse) : list string := result.*1.

(** [Object.keys(result).filter(k => !['type', 'uiRestrictions'].includes(k))]. *)
Definition metricIds (result : TSVBResponse) : list string :=
  filter (λ k, k ∉ reserved_keys) (keys result).

(** [result[id]]. *)
Fixpoint get (result : TSVBResponse) (id : string) : option Panel :=
  match result with
  | [] => None
  | (k, p) :: rest => if String.eqb k id then Some p else get rest id
  end.

(** [point => ({ timestamp: point[0], value: point[1] })]. *)
Definition convert_point (point : Z * Q) : Point :=
  {| timestamp := point.1; value := point.2 |}.

Definition convert_series (series : RawSeries) : Series :=
  {| series_id := raw_id series;
     series_label := raw_label series;
     series_data := convert_point <$> raw_data series |}.

Definition invalidInfraMetricErrorMessage (id : string) : string :=
  id +:+ " is not a valid InfraMetric".

(** The callback of [metricIds.map]. *)
Definition convert_metric (imp : Imports) (result : TSVBResponse) (id : string)
  : outcome NodeDetailsMetricData :=
  if InventoryMetricRT_is imp id then
    match get result id with
    | Some panel =>
        Fulfilled {| metric_id := id;
                     metric_series := convert_series <$> panel_series panel |}
    | None => Rejected (TypeError "Cannot read property 'series' of undefined")
    end
  else Rejected (Error (invalidInfraMetricErrorMessage id)).

(** The callback of [results.map]. *)
Definition normalize (imp : Imports) (result : TSVBResponse)
  : outcome (list NodeDetailsMetricData) :=
  map_throwing (convert_metric imp result) (metricIds result).

(** [flatten] of lodash, on an array of arrays. *)
Definition flatten {A} (xss : list (list A)) : list A := concat xss.

(** [.then(results => results.map(...)).then(result => flatten(result))]. *)
Definition reshape (imp : Imports) (results : list TSVBResponse)
  : outcome (list NodeDetailsMetricData) :=
  match map_throwing (normalize imp) results with
  | Fulfilled nested => Fulfilled (flatten nested)
  | Rejected e => Rejected e
  end.

(** ** The collaborators and their calls *)

(** [{ min: options.timerange.from, max: options.timerange.to }]. *)
Record TSVBTimerange := { min : Z; max : Z }.

(** [{ match: { [field]: id } }]. *)
Record Filter := { match_field : string; match_value : string }.

(** The calls the adapter makes to the functions it imports, with the
    arguments the adapter computes. *)
Inductive call :=
| CheckValidNode (indexPattern nodeField node : string)
| CalculateMetricInterval (indexPattern timestampField : string)
    (range : Timerange) (modules : list string)
| MakeTSVBRequest (model : TSVBModel) (range : TSVBTimerange)
    (filters : list Filter).

(** A trace entry: the call and the position in [options.metrics] of the
    metric it was made for ([None] for a call of [getMetrics] itself). *)
Definition traced : Type := option nat * call.

(** What the environment hands back to a suspended task: the outcome of the
    probe of the interval calculator, or the outcome of the metric query.
    When the calculator answers without probing, the reply stands for the
    turn of the event loop that resumes the task and its payload is not
    read. *)
Inductive reply :=
| IntervalReply (probe : outcome (option width))
| TSVBReply (response : outcome TSVBResponse).

(** Modelled from the spec: [calculateMetricInterval] is imported from
    utils/calculate_metric_interval and is not part of the sources at hand.
    With an empty [requires] list it returns no value; otherwise it probes
    the backend and yields what the probe gives: the minimum bucket width in
    seconds, no value when the range is sparse or empty, or the failure of
    the backend. *)
Definition calculateMetricInterval (modules : list string)
    (probe : outcome (option width)) : outcome (option number) :=
  match modules with
  | [] => Fulfilled None
  | _ :: _ =>
      match probe with
      | Fulfilled w => Fulfilled (number_of_width <$> w)
      | Rejected e => Rejected e
      end
  end.

(** ** [makeTSVBRequest] as a task *)

(** The two template strings of the adapter. *)
Definition metricIndexPattern (options : Options) : string :=
  metricAlias (sourceConfiguration options) +:+ "," +:+
  logAlias (sourceConfiguration options).

Definition intervalIndexPattern (options : Options) : string :=
  logAlias (sourceConfiguration options) +:+ "," +:+
  metricAlias (sourceConfiguration options).

Definition nodeDoesNotExistErrorMessage (node : string) : string :=
  node +:+ " does not exist.".

Definition missingTSVBModelError (metricId type : string) : string :=
  "The TSVB model for " +:+ metricId +:+ " does not exist for " +:+ type.

Definition cloudIdMissingErrorMessage (metricId node : string) : string :=
  "Model for " +:+ metricId +:+ " requires a cloudId, but none was given for "
  +:+ node +:+ ".".

(** [model.id_type === 'cloud']. *)
Definition is_cloud (model : TSVBModel) : bool :=
  match id_type model with
  | Some t => String.eqb t "cloud"
  | None => false
  end.

(** [model.interval = `>=${calculatedInterval}s`]. *)
Definition set_interval (model : TSVBModel) (seconds : number) : TSVBModel :=
  {| model_id := model_id model;
     requires := requires model;
     index_pattern := index_pattern model;
     model_interval := ">=" +:+ number_text seconds +:+ "s";
     time_field := time_field model;
     id_type := id_type model;
     map_field_to := map_field_to model;
     model_body := model_body model |}.

(** [if (calculatedInterval) { model.interval = ... }]. *)
Definition apply_interval (model : TSVBModel) (calculatedInterval : option number)
  : TSVBModel :=
  match calculatedInterval with
  | Some seconds =>
      if number_truthy seconds then set_interval model seconds else model
  | None => model
  end.

(** A call of [makeTSVBRequest] between two suspension points. *)
Inductive task :=
| AwaitInterval (metricId : string) (model : TSVBModel)
| AwaitTSVB
| Settled (result : outcome TSVBResponse).

(** [createTSVBModel(fields.timestamp, indexPattern, timerange.interval)]. *)
Definition build_model (options : Options) (createTSVBModel : TSVBMetricModelCreator)
  : TSVBModel :=
  createTSVBModel (fields_timestamp (fields (sourceConfiguration options)))
    (metricIndexPattern options) (interval (timerange options)).

(** The call [calculateMetricInterval(framework, requestContext,
    { indexPattern, timestampField, timerange }, model.requires)]. *)
Definition interval_call (options : Options) (model : TSVBModel) : call :=
  CalculateMetricInterval (intervalIndexPattern options)
    (fields_timestamp (fields (sourceConfiguration options)))
    (timerange options) (requires model).

(** From the entry of [makeTSVBRequest] to [await calculateMetricInterval]. *)
Definition start (imp : Imports) (options : Options) (metricId : string)
  : task * list call :=
  match tsvb imp metricId with
  | None =>
      (Settled (Rejected (Error (missingTSVBModelError metricId (nodeType options)))),
       [])
  | Some createTSVBModel =>
      let model := build_model options createTSVBModel in
      (AwaitInterval metricId model, [interval_call options model])
  end.

(** [model.id_type === 'cloud' && !options.nodeIds.cloudId]. *)
Definition cloudId_missing (options : Options) (model : TSVBModel) : bool :=
  is_cloud model && negb (truthy_opt_string (cloudId (nodeIds options))).

(** From the value of [calculatedInterval] to the [return]. *)
Definition dispatch (options : Options) (nodeField metricId : string)
    (model : TSVBModel) (calculatedInterval : option number)
  : task * list call :=
  let model := apply_interval model calculatedInterval in
  if cloudId_missing options model then
    (Settled (Rejected (Error
       (cloudIdMissingErrorMessage metricId (nodeId (nodeIds options))))), [])
  else
    let id :=
      if is_cloud model then default "" (cloudId (nodeIds options))
      else nodeId (nodeIds options) in
    let field :=
      match map_field_to model with
      | Some f => if truthy_string f then f else nodeField
      | None => nodeField
      end in
    (AwaitTSVB,
     [MakeTSVBRequest model
        {| min := from (timerange options); max := to (timerange options) |}
        [{| match_field := field; match_value := id |}]]).

(** Resuming a suspended task with a reply; [None] when the reply is not the
    one the task waits for (a settled task waits for nothing). *)
Definition resume (options : Options) (nodeField : string) (t : task) (r : reply)
  : option (task * list call) :=
  match t, r with
  | AwaitInterval metricId model, IntervalReply probe =>
      match calculateMetricInterval (requires model) probe with
      | Rejected e => Some (Settled (Rejected e), [])
      | Fulfilled calculatedInterval =>
          Some (dispatch options nodeField metricId model calculatedInterval)
      end
  | AwaitTSVB, TSVBReply response => Some (Settled response, [])
  | _, _ => None
  end.

(** ** [Promise.all(requests)] and the event loop *)

Definition settled_value (t : task) : option TSVBResponse :=
  match t with
  | Settled (Fulfilled v) => Some v
  | _ => None
  end.

(** The values array of [Promise.all] once no element remains. *)
Definition all_fulfilled (ts : list task) : option (list TSVBResponse) :=
  mapM settled_value ts.

(** The first rejection in a sequence of settlements. *)
Fixpoint first_failure {A} (log : list (nat * outcome A)) : option (nat * error) :=
  match log with
  | [] => None
  | (i, Rejected e) :: _ => Some (i, e)
  | (_, Fulfilled _) :: rest => first_failure rest
  end.

(** The reaction of [Promise.all] to the settlement of one element. *)
Definition notify (joined : promise (list TSVBResponse)) (ts : list task)
    (o : outcome TSVBResponse) : promise (list TSVBResponse) :=
  match joined with
  | Some s => Some s
  | None =>
      match o with
      | Rejected e => Some (Rejected e)
      | Fulfilled _ => Fulfilled <$> all_fulfilled ts
      end
  end.

Record state := {
  tasks : list task;
  joined : promise (list TSVBResponse);
  trace : list traced;
  settlements : list (nat * outcome TSVBResponse)
}.

(** The settlements that happen while [options.metrics.map] runs: the tasks
    that threw before their first [await], in the order of the map. *)
Fixpoint early_settlements (n : nat) (ts : list task)
  : list (nat * outcome TSVBResponse) :=
  match ts with
  | [] => []
  | Settled o :: rest => (n, o) :: early_settlements (S n) rest
  | _ :: rest => early_settlements (S n) rest
  end.

Fixpoint tag_calls (n : nat) (started : list (task * list call)) : list traced :=
  match started with
  | [] => []
  | (_, cs) :: rest => (pair (Some n) <$> cs) ++ tag_calls (S n) rest
  end.

(** The state when [Promise.all(requests)] has subscribed to every request. *)
Definition spawn (imp : Imports) (options : Options) (check : traced) : state :=
  let started := start imp options <$> metrics options in
  let ts := started.*1 in
  let log := early_settlements 0 ts in
  {| tasks := ts;
     joined :=
       match first_failure log with
       | Some (_, e) => Some (Rejected e)
       | None => Fulfilled <$> all_fulfilled ts
       end;
     trace := check :: tag_calls 0 started;
     settlements := log |}.

(** One turn of the event loop: a reply resumes the task it is addressed to. *)
Definition step (options : Options) (nodeField : string) (st : state)
    (ev : nat * reply) : state :=
  match tasks st !! ev.1 with
  | None => st
  | Some t =>
      match resume options nodeField t ev.2 with
      | None => st
      | Some (t', cs) =>
          let ts := <[ev.1 := t']> (tasks st) in
          {| tasks := ts;
             joined :=
               match t' with
               | Settled o => notify (joined st) ts o
               | _ => joined st
               end;
             trace := trace st ++ (pair (Some ev.1) <$> cs);
             settlements :=
               match t' with
               | Settled o => settlements st ++ [(ev.1, o)]
               | _ => settlements st
               end |}
      end
  end.

Definition run (options : Options) (nodeField : string) (st : state)
    (replies : list (nat * reply)) : state :=
  foldl (step options nodeField) st replies.

(** ** [getMetrics] *)

(** What an observer sees of one call of [getMetrics]: the promise it
    returned, the calls made, the per-metric requests and the order in which
    they settled. *)
Record execution := {
  returned : promise (list NodeDetailsMetricData);
  calls : list traced;
  requests : list task;
  settled_order : list (nat * outcome TSVBResponse)
}.

(** [findInventoryFields(options.nodeType, fields).id]. *)
Definition nodeField (imp : Imports) (options : Options) : string :=
  findInventoryFields_id imp (nodeType options) (fields (sourceConfiguration options)).

Definition check_call (imp : Imports) (options : Options) : traced :=
  (None,
   CheckValidNode (metricIndexPattern options) (nodeField imp options)
     (nodeId (nodeIds options))).

(** [validNode] is what [await checkValidNode(...)] yields, [replies] the
    replies that arrive afterwards, in order of arrival. *)
Definition getMetrics (imp : Imports) (options : Options)
    (validNode : outcome bool) (replies : list (nat * reply)) : execution :=
  let check := check_call imp options in
  match validNode with
  | Rejected e =>
      {| returned := Some (Rejected e); calls := [check];
         requests := []; settled_order := [] |}
  | Fulfilled false =>
      {| returned :=
           Some (Rejected (Error
             (nodeDoesNotExistErrorMessage (nodeId (nodeIds options)))));
         calls := [check]; requests := []; settled_order := [] |}
  | Fulfilled true =>
      let st := run options (nodeField imp options) (spawn imp options check) replies in
      {| returned :=
           match joined st with
           | Some (Fulfilled results) => Some (reshape imp results)
           | Some (Rejected e) => Some (Rejected e)
           | None => None
           end;
         calls := trace st;
         requests := tasks st;
         settled_order := settlements st |}
  end.

(** ** Invariants of an execution

    What holds of the tasks, of the trace and of the join after the replies
    [evs] have been handled. *)

(** The task of the metric at position [i]. *)
Definition task_inv (imp : Imports) (options : Options)
    (evs : list (nat * reply)) (i : nat) (t : task) : Prop :=
  ∃ m, metrics options !! i = Some m ∧
    match tsvb imp m with
    | None =>
        t = Settled (Rejected (Error (missingTSVBModelError m (nodeType options))))
    | Some create =>
        let model := build_model options create in
        match t with
        | AwaitInterval m' model' =>
            m' = m ∧ model' = model ∧ ∀ p, (i, IntervalReply p) ∉ evs
        | AwaitTSVB => cloudId_missing options model = false
        | Settled (Fulfilled response) =>
            cloudId_missing options model = false ∧
            (i, TSVBReply (Fulfilled response)) ∈ evs
        | Settled (Rejected e) =>
            (∃ p, (i, IntervalReply p) ∈ evs ∧
               (calculateMetricInterval (requires model) p = Rejected e ∨
                (∃ ci, calculateMetricInterval (requires model) p = Fulfilled ci) ∧
                cloudId_missing options model = true ∧
                e = Error (cloudIdMissingErrorMessage m (nodeId (nodeIds options)))))
            ∨ (cloudId_missing options model = false ∧
               (i, TSVBReply (Rejected e)) ∈ evs)
        end
    end.

(** A call made for the metric at some position. *)
Definition call_inv (imp : Imports) (options : Options)
    (evs : list (nat * reply)) (tc : traced) : Prop :=
  ∃ i m create, tc.1 = Some i ∧ metrics options !! i = Some m ∧
    tsvb imp m = Some create ∧
    let model := build_model options create in
    (tc.2 = interval_call options model ∨
     ∃ p ci, (i, IntervalReply p) ∈ evs ∧
       calculateMetricInterval (requires model) p = Fulfilled ci ∧
       dispatch options (nodeField imp options) m model ci = (AwaitTSVB, [tc.2])).

(** The join, as a function of the settlements so far. *)
Definition joined_inv (st : state) : Prop :=
  (∀ j o, (j, o) ∈ settlements st ↔ tasks st !! j = Some (Settled o)) ∧
  joined st =
    match first_failure (settlements st) with
    | Some (_, e) => Some (Rejected e)
    | None => Fulfilled <$> all_fulfilled (tasks st)
    end.

(** ** A concrete catalog and request *)

Module Sample.

Definition standalone (id : string) (modules : list string) : TSVBMetricModelCreator :=
  λ timeField indexPattern interval,
    {| model_id := id; requires := modules; index_pattern := indexPattern;
       model_interval := interval; time_field := timeField;
       id_type := None; map_field_to := None; model_body := [] |}.

Definition cloud (id : string) (modules : list string) : TSVBMetricModelCreator :=
  λ timeField indexPattern interval,
    {| model_id := id; requires := modules; index_pattern := indexPattern;
       model_interval := interval; time_field := timeField;
       id_type := Some "cloud"; map_field_to := Some "cloud.instance.id";
       model_body := [] |}.

Definition imports : Imports :=
  {| tsvb := λ id,
       if String.eqb id "cpu" then Some (standalone "cpu" ["system"])
       else if String.eqb id "memory" then Some (standalone "memory" [])
       else if String.eqb id "awsOverview" then Some (cloud "awsOverview" ["aws"])
       else None;
     InventoryMetricRT_is := λ id,
       bool_decide (id ∈ ["cpu"; "memory"; "awsOverview"]);
     findInventoryFields_id := λ _ _, "host.name" |}.

Definition request (ids : list string) : Options :=
  {| nodeType := "host";
     nodeIds := {| nodeId := "node-1"; cloudId := None |};
     metrics := ids;
     timerange := {| from := 0; to := 10000; interval := "10s" |};
     sourceConfiguration :=
       {| metricAlias := "metricbeat-*"; logAlias := "filebeat-*";
          fields := {| fields_timestamp := "@timestamp" |} |} |}.

Definition seconds_30 : width := {| width_text := "30" |}.

Definition seconds_60 : width := {| width_text := "60" |}.

Definition cpu_response : TSVBResponse :=
  [("cpu",
    {| panel_series :=
         [{| raw_id := "cpu"; raw_label := "CPU";
             raw_data := [(1000%Z, (1 # 2)%Q); (2000%Z, (3 # 5)%Q)] |}] |})].

Definition memory_response : TSVBResponse :=
  [("memory",
    {| panel_series :=
         [{| raw_id := "memory"; raw_label := "Memory";
             raw_data := [(1000%Z, (40 # 1)%Q)] |}] |})].

End Sample.

(** ** One request on its own *)

(** The replies addressed to the request at position [i], in order of
    arrival, and the calls made for it, in program order. *)
Definition replies_to (i : nat) (replies : list (nat * reply)) : list reply :=
  omap (λ ev, if decide (ev.1 = i) then Some ev.2 else None) replies.

Definition calls_for (i : nat) (tr : list traced) : list call :=
  omap (λ tc, if decide (tc.1 = Some i) then Some tc.2 else None) tr.

(** A call of [makeTSVBRequest] followed on its own: its state and the calls
    it has made so far. *)
Definition task_step (options : Options) (nodeField : string)
    (tc : task * list call) (r : reply) : task * list call :=
  match resume options nodeField tc.1 r with
  | Some (t', cs) => (t', tc.2 ++ cs)
  | None => tc
  end.

Definition run_task (options : Options) (nodeField : string)
    (tc : task * list call) (rs : list reply) : task * list call :=
  foldl (task_step options nodeField) tc rs.

(** ** The string log format ([KbnLoggerStringFormat])

    Strings are sequences of one-byte characters, so the lengths and the
    order of strings are those of JavaScript on ASCII text. *)

Module Logger.

Definition statuses : list string :=
  ["err"; "info"; "error"; "warning"; "fatal"; "status"; "debug"].

Definition typeColors : list (string * string) :=
  [("log", "blue"); ("req", "green"); ("res", "green"); ("ops", "cyan");
   ("config", "cyan"); ("err", "red"); ("info", "green"); ("error", "red");
   ("warning", "red"); ("fatal", "magenta"); ("status", "yellow");
   ("debug", "brightBlack"); ("server", "brightBlack"); ("optmzr", "white");
   ("managr", "green"); ("optimize", "magenta"); ("listening", "magenta")].

(** [typeColors[name]]. *)
Fixpoint lookup_color (table : list (string * string)) (name : string)
  : option string :=
  match table with
  | [] => None
  | (k, c) :: rest => if String.eqb k name then Some c else lookup_color rest name
  end.

(** The styles exported by the ansicolors package, by name; a style turns a
    text into the text wrapped in escape codes. *)
Definition Ansicolors := string → option (string → string).

(** [color]: [ansicolors[typeColors[name]] || _.identity].  The result
    [None] stands for [_.identity]; memoization does not change the value
    of a function without effects. *)
Definition color (ansicolors : Ansicolors) (name : string)
  : option (string → string) :=
  match lookup_color typeColors name with
  | Some c => ansicolors c
  | None => None
  end.

(** Applying the function [color] returned. *)
Definition paint (style : option (string → string)) (text : string) : string :=
  match style with
  | Some f => f text
  | None => text
  end.

Fixpoint spaces (n : nat) : string :=
  match n with
  | 0 => ""
  | S n' => String Ascii.Space (spaces n')
  end.

(** [_.pad(string, length)] of lodash: the string when it is at least
    [length] long, otherwise padded with spaces on both sides, the left side
    getting the smaller half. *)
Definition pad (s : string) (len : nat) : string :=
  if decide (len = 0 ∨ len ≤ String.length s) then s
  else
    spaces ((len - String.length s) / 2) +:+ s +:+
    spaces ((len - String.length s) - (len - String.length s) / 2).

(** [s.slice(0, n)]. *)
Definition slice0 (n : nat) (s : string) : string := String.substring 0 n s.

(** [type]: [color(t)(_.pad(t, 7).slice(0, 7))]. *)
Definition type (ansicolors : Ansicolors) (t : string) : string :=
  paint (color ansicolors t) (slice0 7 (pad t 7)).

(** [_.sortBy(collection, iteratee)] of lodash: the stable sort in ascending
    order of the keys.  Insertion from the right, before the first element
    whose key is not smaller, computes it. *)
Fixpoint insert_by {A} (key : A → string) (x : A) (l : list A) : list A :=
  match l with
  | [] => [x]
  | y :: l' =>
      if decide (String.le (key x) (key y)) then x :: l
      else y :: insert_by key x l'
  end.

Definition sortBy {A} (key : A → string) (l : list A) : list A :=
  foldr (insert_by key) [] l.

(** The iteratee of [sortBy] in [format]. *)
Definition tag_key (ansicolors : Ansicolors) (tag : string) : string :=
  match color ansicolors tag with
  | None => "2" +:+ tag
  | Some _ =>
      if bool_decide (tag ∈ statuses) then "0" +:+ tag else "1" +:+ tag
  end.

(** The tags of [format]: sorted, then each in brackets and in its colour. *)
Definition format_tags (ansicolors : Ansicolors) (tags : list string) : string :=
  foldl (λ s t, s +:+ "[" +:+ paint (color ansicolors t) t +:+ "]") ""
    (sortBy (tag_key ansicolors) tags).

(** The fields of a log event that [format] reads; [log_error] is
    [data.error.stack] when [data.error] is set. *)
Record LogData := {
  log_type : string;
  log_tags : list string;
  log_error : option string;
  log_message : string;
  log_timestamp : Z
}.

(** [workerType], from [process.env.kbnWorkerType]. *)
Definition workerType (ansicolors : Ansicolors) (kbnWorkerType : option string)
  : string :=
  match kbnWorkerType with
  | Some w => if truthy_string w then type ansicolors w +:+ " " else ""
  | None => ""
  end.

(** [format(data)].  [extractAndFormatTimestamp] is inherited from
    [LogFormat] and is a parameter here. *)
Definition format (ansicolors : Ansicolors) (kbnWorkerType : option string)
    (extractAndFormatTimestamp : LogData → string → string) (data : LogData)
  : string :=
  let time :=
    paint (color ansicolors "time") (extractAndFormatTimestamp data "HH:mm:ss.SSS") in
  let msg :=
    match log_error data with
    | Some stack => paint (color ansicolors "error") stack
    | None => paint (color ansicolors "message") (log_message data)
    end in
  let tags := format_tags ansicolors (log_tags data) in
  workerType ansicolors kbnWorkerType +:+ type ansicolors (log_type data) +:+
  " [" +:+ time +:+ "] " +:+ tags +:+ " " +:+ msg.

(** The class the iteratee puts a tag in: statuses that have a colour first,
    then the other tags that have a colour, then the tags without. *)
Definition rank (ansicolors : Ansicolors) (tag : string) : nat :=
  match color ansicolors tag with
  | None => 2
  | Some _ => if bool_decide (tag ∈ statuses) then 0 else 1
  end.

(** [data] with other tags. *)
Definition with_tags (data : LogData) (tags : list string) : LogData :=
  {| log_type := log_type data; log_tags := tags; log_error := log_error data;
     log_message := log_message data; log_timestamp := log_timestamp data |}.

End Logger.

(** * Properties *)

(** ** Maps whose callback may throw *)

Section MapThrowing.
Context {A B : Type} (f : A → outcome B).

Lemma map_throwing_fulfilled xs ys :
  map_throwing f xs = Fulfilled ys ↔ Forall2 (λ x y, f x = Fulfilled y) xs ys.
Proof.
  revert ys. induction xs as [|x xs IH]; intros ys; simpl.
  - split.
    + intros [= <-]. constructor.
    + intros H. inversion H. reflexivity.
  - destruct (f x) as [y|e] eqn:Hx.
    + destruct (map_throwing f xs) as [zs|e] eqn:Hxs.
      * split.
        -- intros [= <-]. constructor; [assumption | by apply IH].
        -- intros H. inversion H as [|? y' ? zs' Hy Hzs]; subst.
           apply IH in Hzs. congruence.
      * split; [discriminate |].
        intros H. inversion H as [|? y' ? zs' Hy Hzs]; subst.
        apply IH in Hzs. discriminate.
    + split; [discriminate |].
      intros H. inversion H; subst. congruence.
Qed.

(** A rejected map stopped at the first element whose callback threw. *)
Lemma map_throwing_rejected xs e :
  map_throwing f xs = Rejected e ↔
  ∃ pre x post, xs = pre ++ x :: post ∧
    Forall (λ x', ∃ y, f x' = Fulfilled y) pre ∧ f x = Rejected e.
Proof.
  induction xs as [|x xs IH]; simpl.
  - split; [discriminate |]. intros (pre & x & post & H & _).
    by destruct pre.
  - destruct (f x) as [y|e'] eqn:Hx.
    + destruct (map_throwing f xs) as [zs|e''] eqn:Hxs.
      * split; [discriminate |].
        intros (pre & x' & post & Heq & Hpre & Hx').
        destruct pre as [|p pre]; simpl in Heq; injection Heq as -> ->.
        -- congruence.
        -- apply Forall_cons in Hpre as [_ Hpre].
           assert (Fulfilled zs = Rejected e) as Habs; [|discriminate].
           apply IH. eauto 6.
      * split.
        -- intros [= ->]. destruct IH as [IH _].
           destruct (IH eq_refl) as (pre & x' & post & -> & Hpre & Hx').
           exists (x :: pre), x', post. split_and!; [done | | done].
           constructor; eauto.
        -- intros (pre & x' & post & Heq & Hpre & Hx').
           destruct pre as [|p pre]; simpl in Heq; injection Heq as -> ->.
           ++ congruence.
           ++ apply Forall_cons in Hpre as [_ Hpre].
              f_equal. assert (Rejected e'' = Rejected (A:=list B) e) as [= ->]; [|done].
              apply IH. eauto 6.
    + split.
      * intros [= ->]. exists [], x, xs. split_and!; [done | constructor | done].
      * intros (pre & x' & post & Heq & Hpre & Hx').
        destruct pre as [|p pre]; simpl in Heq; injection Heq as -> ->.
        -- congruence.
        -- apply Forall_cons in Hpre as [[y Hy] _]. congruence.
Qed.

Lemma map_throwing_total xs :
  Forall (λ x, ∃ y, f x = Fulfilled y) xs → ∃ ys, map_throwing f xs = Fulfilled ys.
Proof.
  intros Hall. destruct (map_throwing f xs) as [ys|e] eqn:H; [eauto |].
  apply map_throwing_rejected in H as (pre & x & post & -> & _ & Hx).
  apply Forall_app in Hall as [_ Hall].
  apply Forall_cons in Hall as [[y Hy] _]. congruence.
Qed.
End MapThrowing.

(** ** Reshaping *)

Lemma elem_of_metricIds result k :
  k ∈ metricIds result ↔ k ∈ keys result ∧ k ≠ "type" ∧ k ≠ "uiRestrictions".
Proof.
  unfold metricIds, reserved_keys. rewrite list_elem_of_filter.
  rewrite !elem_of_cons, elem_of_nil. tauto.
Qed.

Lemma get_is_Some result id : id ∈ keys result → is_Some (get result id).
Proof.
  unfold keys. induction result as [|[k p] rest IH]; simpl.
  - by intros ?%elem_of_nil.
  - intros [->|Hin]%elem_of_cons.
    + rewrite String.eqb_refl. eauto.
    + destruct (String.eqb k id); eauto.
Qed.

Lemma convert_metric_fulfilled imp result id d :
  convert_metric imp result id = Fulfilled d ↔
  InventoryMetricRT_is imp id = true ∧
  ∃ panel, get result id = Some panel ∧
    d = {| metric_id := id;
           metric_series := convert_series <$> panel_series panel |}.
Proof.
  unfold convert_metric.
  destruct (InventoryMetricRT_is imp id); [|split; [discriminate | intros [? _]; discriminate]].
  destruct (get result id) as [panel|].
  - split.
    + intros [= <-]. eauto.
    + intros (_ & panel' & [= <-] & ->). done.
  - split; [discriminate |]. intros (_ & ? & ? & _). discriminate.
Qed.

Lemma convert_metric_rejected imp result id e :
  id ∈ keys result →
  convert_metric imp result id = Rejected e ↔
  InventoryMetricRT_is imp id = false ∧ e = Error (invalidInfraMetricErrorMessage id).
Proof.
  intros [panel Hp]%get_is_Some. unfold convert_metric. rewrite Hp.
  destruct (InventoryMetricRT_is imp id).
  - split; [discriminate | intros [? _]; discriminate].
  - split; [intros [= <-]; done | intros [_ ->]; done].
Qed.

Lemma normalize_fulfilled imp result ds :
  normalize imp result = Fulfilled ds ↔
  Forall2 (λ id d, convert_metric imp result id = Fulfilled d) (metricIds result) ds.
Proof. apply map_throwing_fulfilled. Qed.

Lemma normalize_ids imp result ds :
  normalize imp result = Fulfilled ds → metric_id <$> ds = metricIds result.
Proof.
  rewrite normalize_fulfilled. induction 1 as [|id d ids ds Hd _ IH]; simpl; [done |].
  apply convert_metric_fulfilled in Hd as (_ & panel & _ & ->). simpl. by f_equal.
Qed.

Lemma normalize_recognized imp result :
  Forall (λ id, InventoryMetricRT_is imp id = true) (metricIds result) →
  ∃ ds, normalize imp result = Fulfilled ds.
Proof.
  intros Hall. apply map_throwing_total.
  apply Forall_forall. intros id Hid.
  pose proof (proj1 (Forall_forall _ _) Hall id Hid) as Hrec.
  apply elem_of_metricIds in Hid as [[panel Hp]%get_is_Some _].
  eexists. apply convert_metric_fulfilled. eauto.
Qed.

Lemma reshape_fulfilled imp results out :
  reshape imp results = Fulfilled out ↔
  ∃ nested, Forall2 (λ raw ds, normalize imp raw = Fulfilled ds) results nested ∧
    out = flatten nested.
Proof.
  unfold reshape. destruct (map_throwing (normalize imp) results) as [nested|e] eqn:H.
  - apply map_throwing_fulfilled in H. split.
    + intros [= <-]. eauto.
    + intros (nested' & H' & ->). f_equal. f_equal.
      clear -H H'. revert nested' H'. induction H; intros nested' H'; inversion H'; subst; [done |].
      f_equal; [congruence | eauto].
  - split; [discriminate |]. intros (nested & H' & _).
    apply map_throwing_fulfilled in H'. congruence.
Qed.


(** ** Tasks *)

Lemma is_cloud_apply_interval model ci :
  is_cloud (apply_interval model ci) = is_cloud model.
Proof.
  destruct ci as [v|]; simpl; [|done]. by destruct (number_truthy v).
Qed.

Lemma dispatch_inv options nf m model ci t cs :
  dispatch options nf m model ci = (t, cs) →
  (cloudId_missing options model = true ∧
   t = Settled (Rejected (Error
         (cloudIdMissingErrorMessage m (nodeId (nodeIds options))))) ∧
   cs = []) ∨
  (cloudId_missing options model = false ∧ t = AwaitTSVB ∧
   ∃ range filters, cs = [MakeTSVBRequest (apply_interval model ci) range filters]).
Proof.
  unfold dispatch, cloudId_missing. rewrite is_cloud_apply_interval.
  destruct (is_cloud model && _); intros [= <- <-]; [left | right]; eauto 6.
Qed.

Lemma resume_inv options nf t r t' cs :
  resume options nf t r = Some (t', cs) →
  (∃ m model p, t = AwaitInterval m model ∧ r = IntervalReply p ∧
     ((∃ e, calculateMetricInterval (requires model) p = Rejected e ∧
            t' = Settled (Rejected e) ∧ cs = []) ∨
      (∃ ci, calculateMetricInterval (requires model) p = Fulfilled ci ∧
             dispatch options nf m model ci = (t', cs)))) ∨
  (∃ o, t = AwaitTSVB ∧ r = TSVBReply o ∧ t' = Settled o ∧ cs = []).
Proof.
  destruct t as [m model| |o], r as [p|o']; simpl; try discriminate.
  - destruct (calculateMetricInterval (requires model) p) as [ci|e] eqn:Hc.
    + intros [= H]. left. exists m, model, p. eauto 8.
    + intros [= <- <-]. left. exists m, model, p. eauto 8.
  - intros [= <- <-]. right. eauto.
Qed.

Lemma resume_settled options nf o r : resume options nf (Settled o) r = None.
Proof. by destruct r. Qed.

(** ** The event loop *)

Section EventLoop.
Variables (options : Options) (nf : string).

Lemma run_snoc st evs ev :
  run options nf st (evs ++ [ev]) = step options nf (run options nf st evs) ev.
Proof. unfold run. apply foldl_snoc. Qed.

Lemma step_length st ev : length (tasks (step options nf st ev)) = length (tasks st).
Proof.
  unfold step. destruct (tasks st !! ev.1) as [t|]; [|done].
  destruct (resume options nf t ev.2) as [[t' cs]|]; [|done].
  simpl. apply length_insert.
Qed.

Lemma run_length st evs : length (tasks (run options nf st evs)) = length (tasks st).
Proof.
  induction evs as [|ev evs IH] using rev_ind; [done |].
  rewrite run_snoc, step_length. exact IH.
Qed.

(** A settled task never changes. *)
Lemma step_settled st ev i o :
  tasks st !! i = Some (Settled o) →
  tasks (step options nf st ev) !! i = Some (Settled o).
Proof.
  intros Hi. unfold step. destruct (tasks st !! ev.1) as [t|] eqn:Ht; [|done].
  destruct (resume options nf t ev.2) as [[t' cs]|] eqn:Hr; [|done].
  simpl. destruct (decide (ev.1 = i)) as [Heq|Hne].
  - rewrite Heq, Hi in Ht. injection Ht as <-. by rewrite resume_settled in Hr.
  - by rewrite list_lookup_insert_ne.
Qed.

(** A settled join never changes. *)
Lemma step_joined st ev s :
  joined st = Some s → joined (step options nf st ev) = Some s.
Proof.
  intros Hj. unfold step. destruct (tasks st !! ev.1) as [t|]; [|done].
  destruct (resume options nf t ev.2) as [[t' cs]|]; [|done].
  simpl. destruct t'; try done. unfold notify. by rewrite Hj.
Qed.

Lemma run_joined st evs s :
  joined st = Some s → joined (run options nf st evs) = Some s.
Proof.
  intros Hj. induction evs as [|ev evs IH] using rev_ind; [done |].
  rewrite run_snoc. by apply step_joined.
Qed.

(** The trace only grows, at its end. *)
Lemma step_trace st ev :
  ∃ cs, trace (step options nf st ev) = trace st ++ cs.
Proof.
  unfold step. destruct (tasks st !! ev.1) as [t|]; [|exists []; by rewrite app_nil_r].
  destruct (resume options nf t ev.2) as [[t' cs]|]; [|exists []; by rewrite app_nil_r].
  simpl. eauto.
Qed.

Lemma run_trace st evs :
  ∃ cs, trace (run options nf st evs) = trace st ++ cs.
Proof.
  induction evs as [|ev evs [cs IH]] using rev_ind.
  - exists []. by rewrite app_nil_r.
  - rewrite run_snoc. destruct (step_trace (run options nf st evs) ev) as [cs' ->].
    rewrite IH, <- app_assoc. eauto.
Qed.
End EventLoop.


(** ** The state after [options.metrics.map] *)

Lemma elem_of_early_settlements n ts j o :
  (j, o) ∈ early_settlements n ts ↔ ∃ k, j = n + k ∧ ts !! k = Some (Settled o).
Proof.
  revert n. induction ts as [|t ts IH]; intros n; simpl.
  - rewrite elem_of_nil. split; [done |]. by intros (k & _ & ?).
  - assert ((j, o) ∈ early_settlements (S n) ts ↔
            ∃ k, j = n + S k ∧ ts !! k = Some (Settled o)) as IH'.
    { rewrite IH. split; intros (k & -> & ?); exists k; split; (lia || done). }
    destruct t as [m model| |o'].
    1,2: rewrite IH'; split;
      [ intros (k & -> & ?); by exists (S k)
      | intros ([|k] & -> & ?); [done | by exists k] ].
    rewrite elem_of_cons, IH'. split.
    + intros [[= -> ->]|(k & -> & ?)]; [exists 0 | exists (S k)]; split; (lia || done).
    + intros ([|k] & -> & Hk); simpl in Hk.
      * left. injection Hk as ->. f_equal. lia.
      * right. by exists k.
Qed.

Lemma first_failure_app {A} (l1 l2 : list (nat * outcome A)) :
  first_failure (l1 ++ l2) =
    match first_failure l1 with
    | Some x => Some x
    | None => first_failure l2
    end.
Proof.
  induction l1 as [|[i [v|e]] l1 IH]; simpl; done.
Qed.

Lemma first_failure_None {A} (log : list (nat * outcome A)) :
  first_failure log = None ↔ ∀ j e, (j, Rejected e) ∉ log.
Proof.
  induction log as [|[i [v|e]] log IH]; simpl.
  - split; [|done]. intros _ j e. apply not_elem_of_nil.
  - rewrite IH. split.
    + intros H j e [[=]|?]%elem_of_cons. by eapply H.
    + intros H j e Hin. eapply H. by right.
  - split; [done |]. intros H. exfalso. eapply H. by left.
Qed.

Lemma first_failure_Some {A} (log : list (nat * outcome A)) j e :
  first_failure log = Some (j, e) → (j, Rejected e) ∈ log.
Proof.
  induction log as [|[i [v|e']] log IH]; simpl; [done | |].
  - intros ?%IH. by right.
  - intros [= -> ->]. by left.
Qed.

Lemma all_fulfilled_Some ts vs :
  all_fulfilled ts = Some vs ↔ ts = (λ v, Settled (Fulfilled v)) <$> vs.
Proof.
  unfold all_fulfilled. rewrite mapM_Some. split.
  - induction 1 as [|t v ts vs Ht _ IH]; simpl; [done |].
    destruct t as [| |[v'|]]; simplify_eq/=. by f_equal.
  - intros ->. apply Forall2_fmap_l, Forall_Forall2_diag, Forall_forall. done.
Qed.

Lemma all_fulfilled_unsettled ts i t :
  ts !! i = Some t → settled_value t = None → all_fulfilled ts = None.
Proof.
  intros Hi Ht. apply mapM_None, Exists_exists. exists t. split; [|done].
  by eapply list_elem_of_lookup_2.
Qed.

Section Spawn.
Variables (imp : Imports) (options : Options).

Lemma spawn_tasks_lookup check i :
  tasks (spawn imp options check) !! i =
    (λ m, (start imp options m).1) <$> metrics options !! i.
Proof.
  simpl. rewrite !list_lookup_fmap. by destruct (metrics options !! i).
Qed.

Lemma spawn_length check :
  length (tasks (spawn imp options check)) = length (metrics options).
Proof. simpl. by rewrite !length_fmap. Qed.

Lemma elem_of_tag_calls n (ms : list string) tc :
  tc ∈ tag_calls n (start imp options <$> ms) ↔
  ∃ k m create, ms !! k = Some m ∧ tsvb imp m = Some create ∧
    tc = (Some (n + k), interval_call options (build_model options create)).
Proof.
  revert n. induction ms as [|m ms IH]; intros n; simpl.
  - rewrite elem_of_nil. split; [done |]. by intros (k & ? & ? & ? & _).
  - destruct (start imp options m) as [t cs] eqn:Hs.
    rewrite elem_of_app, IH. unfold start in Hs. split.
    + intros [Hin|(k & m' & create & Hk & Hm' & ->)].
      * destruct (tsvb imp m) as [create|] eqn:Hm; injection Hs as <- <-.
        -- apply list_elem_of_fmap in Hin as (c & -> & ->%list_elem_of_singleton).
           exists 0, m, create. split_and!; [done | done |]. do 2 f_equal. lia.
        -- by apply elem_of_nil in Hin.
      * exists (S k), m', create. split_and!; [done | done |]. do 2 f_equal. lia.
    + intros ([|k] & m' & create & Hk & Hm' & ->); simpl in Hk.
      * injection Hk as ->. rewrite Hm' in Hs. injection Hs as <- <-.
        left. simpl. apply list_elem_of_singleton. do 2 f_equal. lia.
      * right. exists k, m', create. split_and!; [done | done |]. do 2 f_equal. lia.
Qed.

(** While the map runs, the first request to be rejected is the one of the
    first metric that has no model. *)
Lemma early_first_failure n pre m post :
  Forall (λ m', is_Some (tsvb imp m')) pre →
  tsvb imp m = None →
  first_failure
    (early_settlements n (start imp options <$> (pre ++ m :: post)).*1) =
  Some (n + length pre, Error (missingTSVBModelError m (nodeType options))).
Proof.
  revert n. induction pre as [|m' pre IH]; intros n Hpre Hm; simpl.
  - unfold start. rewrite Hm. simpl. do 2 f_equal. lia.
  - apply Forall_cons in Hpre as [[create Hm'] Hpre].
    unfold start at 1. rewrite Hm'. simpl. rewrite IH by done.
    do 2 f_equal. lia.
Qed.

Lemma early_no_failure n (ms : list string) :
  Forall (λ m', is_Some (tsvb imp m')) ms →
  early_settlements n (start imp options <$> ms).*1 = [].
Proof.
  revert n. induction ms as [|m ms IH]; intros n Hms; simpl; [done |].
  apply Forall_cons in Hms as [[create Hm] Hms].
  unfold start at 1. rewrite Hm. simpl. by apply IH.
Qed.
End Spawn.


(** ** Executions of [getMetrics] past the existence gate *)

Section Execution.
Variables (imp : Imports) (options : Options).

Abbreviation nf := (nodeField imp options).
Abbreviation st0 := (spawn imp options (check_call imp options)).
Abbreviation after evs := (run options nf st0 evs).

Lemma resume_unsettled t r t' cs :
  resume options nf t r = Some (t', cs) → settled_value t = None.
Proof.
  intros [(m & model & p & -> & _)|(o & -> & _)]%resume_inv; done.
Qed.

Lemma task_inv_snoc evs ev i t :
  task_inv imp options evs i t →
  (∀ m model p, t = AwaitInterval m model → ev ≠ (i, IntervalReply p)) →
  task_inv imp options (evs ++ [ev]) i t.
Proof.
  intros (m & Hm & Ht) Hev. exists m. split; [done |].
  destruct (tsvb imp m) as [create|]; [|done].
  destruct t as [m' model'| |[v|e]]; simpl in *; try done.
  - destruct Ht as (-> & -> & Hno). split_and!; [done | done |].
    intros p [Hin|Hin%list_elem_of_singleton]%elem_of_app.
    + by eapply Hno.
    + by eapply Hev.
  - destruct Ht as [Hc Hin]. split; [done |]. apply elem_of_app. by left.
  - destruct Ht as [(p & Hin & Hp)|[Hc Hin]]; [left | right].
    + exists p. split; [|done]. apply elem_of_app. by left.
    + split; [done |]. apply elem_of_app. by left.
Qed.

Lemma tasks_inv evs i t :
  tasks (after evs) !! i = Some t → task_inv imp options evs i t.
Proof.
  revert i t. induction evs as [|ev evs IH] using rev_ind; intros i t.
  - simpl. rewrite !list_lookup_fmap.
    destruct (metrics options !! i) as [m|] eqn:Hm; simpl; [|done].
    intros [= <-]. exists m. split; [done |]. unfold start.
    destruct (tsvb imp m) as [create|]; simpl; [|done].
    split_and!; [done | done |]. intros p. apply not_elem_of_nil.
  - rewrite run_snoc. unfold step.
    destruct (tasks (after evs) !! ev.1) as [t0|] eqn:Ht0.
    2:{ intros Hi. apply task_inv_snoc; [by apply IH |].
        intros m model p -> ->. simpl in Ht0. congruence. }
    destruct (resume options nf t0 ev.2) as [[t' cs]|] eqn:Hr.
    2:{ intros Hi. apply task_inv_snoc; [by apply IH |].
        intros m model p -> ->. simpl in *.
        rewrite Hi in Ht0. injection Ht0 as <-. simpl in Hr.
        by destruct (calculateMetricInterval (requires model) p). }
    simpl. destruct (decide (ev.1 = i)) as [Heq|Hne].
    2:{ rewrite list_lookup_insert_ne by done. intros Hi.
        apply task_inv_snoc; [by apply IH |].
        intros m model p _ ->. done. }
    rewrite Heq in *. rewrite list_lookup_insert_eq by by eapply lookup_lt_Some.
    intros [= <-]. destruct (IH _ _ Ht0) as (m & Hm & Hinv).
    exists m. split; [done |].
    assert (ev ∈ evs ++ [ev]) as Hev.
    { apply elem_of_app. right. by apply list_elem_of_singleton. }
    apply resume_inv in Hr
      as [(m' & model & p & -> & Hp & Hr)|(o & -> & Ho & -> & ->)].
    + destruct (tsvb imp m) as [create|]; [|done]. simpl in *.
      destruct Hinv as (-> & -> & _).
      assert ((i, IntervalReply p) ∈ evs ++ [ev]) as Hin.
      { rewrite <- Hp, <- Heq. by destruct ev. }
      destruct Hr as [(e & Hc & -> & ->)|(ci & Hc & Hd)].
      * left. exists p. eauto.
      * apply dispatch_inv in Hd as [(Hmiss & -> & ->)|(Hok & -> & _)]; [|done].
        left. exists p. split; [done |]. right. eauto.
    + destruct (tsvb imp m) as [create|]; [|done]. simpl in *.
      assert ((i, TSVBReply o) ∈ evs ++ [ev]) as Hin.
      { rewrite <- Ho, <- Heq. by destruct ev. }
      destruct o as [v|e]; [done |]. by right.
Qed.

Lemma call_inv_snoc evs ev tc :
  call_inv imp options evs tc → call_inv imp options (evs ++ [ev]) tc.
Proof.
  intros (i & m & create & Ho & Hm & Hc & [Hcall|(p & ci & Hin & Hp & Hd)]);
    exists i, m, create; split_and!; try done; [by left | right].
  exists p, ci. split_and!; [|done | done]. apply elem_of_app. by left.
Qed.

(** The trace starts with the existence check; every later call is made
    for one of the requested metrics that has a model. *)
Lemma trace_inv evs :
  ∃ rest, trace (after evs) = check_call imp options :: rest ∧
    Forall (call_inv imp options evs) rest.
Proof.
  induction evs as [|ev evs (rest & Htr & Hrest)] using rev_ind.
  - eexists. split; [reflexivity |]. apply Forall_forall.
    intros tc (k & m & create & Hk & Hm & ->)%elem_of_tag_calls.
    exists k, m, create. split_and!; try done. by left.
  - rewrite run_snoc. unfold step.
    assert (Forall (call_inv imp options (evs ++ [ev])) rest) as Hrest'.
    { eapply Forall_impl; [exact Hrest |]. intros tc. apply call_inv_snoc. }
    destruct (tasks (after evs) !! ev.1) as [t0|] eqn:Ht0; [|by eauto].
    destruct (resume options nf t0 ev.2) as [[t' cs]|] eqn:Hr; [|by eauto].
    simpl. rewrite Htr. exists (rest ++ (pair (Some ev.1) <$> cs)).
    split; [done |]. apply Forall_app. split; [done |].
    apply Forall_forall. intros tc (c & -> & Hc)%list_elem_of_fmap.
    destruct (tasks_inv _ _ _ Ht0) as (m & Hm & Hinv).
    apply resume_inv in Hr
      as [(m' & model & p & -> & Hp & Hr)|(o & -> & Ho & -> & ->)];
      [|by apply elem_of_nil in Hc].
    destruct (tsvb imp m) as [create|] eqn:Hcreate; [|done]. simpl in Hinv.
    destruct Hinv as (-> & -> & _).
    destruct Hr as [(e & _ & _ & ->)|(ci & Hci & Hd)]; [by apply elem_of_nil in Hc |].
    pose proof Hd as [(_ & _ & ->)|(_ & -> & range & filters & ->)]%dispatch_inv;
      [by apply elem_of_nil in Hc |].
    apply list_elem_of_singleton in Hc as ->.
    exists ev.1, m, create. split_and!; try done. right.
    exists p, ci. split_and!; [|done | done].
    apply elem_of_app. right. apply list_elem_of_singleton.
    rewrite <- Hp. by destruct ev.
Qed.

(** [Promise.all] is rejected with the first rejection among the
    settlements and is fulfilled once every request is. *)
Lemma joined_inv_run evs : joined_inv (after evs).
Proof.
  induction evs as [|ev evs [Hlog Hj]] using rev_ind.
  - split; [|done]. intros j o. simpl.
    rewrite elem_of_early_settlements. split.
    + by intros (k & -> & ?).
    + intros ?. by exists j.
  - rewrite run_snoc. unfold step.
    destruct (tasks (after evs) !! ev.1) as [t0|] eqn:Ht0; [|done].
    destruct (resume options nf t0 ev.2) as [[t' cs]|] eqn:Hr; [|done].
    pose proof (resume_unsettled _ _ _ _ Hr) as Hun.
    pose proof (lookup_lt_Some _ _ _ Ht0) as Hlt.
    assert (∀ o, (ev.1, o) ∉ settlements (after evs)) as Hfresh.
    { intros o Hin%Hlog. rewrite Ht0 in Hin. by injection Hin as ->. }
    assert (all_fulfilled (tasks (after evs)) = None) as Hnone
      by by eapply all_fulfilled_unsettled.
    destruct (settled_value t') as [v|] eqn:Hv;
      [destruct t' as [| |[v'|]]; simplify_eq/= |].
    + (* the request is fulfilled *)
      split; simpl.
      * intros j o. rewrite elem_of_app, list_elem_of_singleton.
        destruct (decide (ev.1 = j)) as [<-|Hne].
        -- rewrite list_lookup_insert_eq by done. split.
           ++ intros [Hin|[= <-]]; [by apply Hfresh in Hin | done].
           ++ intros [= <-]. by right.
        -- rewrite list_lookup_insert_ne by done. rewrite <- Hlog. split.
           ++ intros [?|[= ? ?]]; [done | congruence].
           ++ by left.
      * rewrite first_failure_app. simpl. rewrite Hj.
        destruct (first_failure (settlements (after evs))) as [[j e]|]; [done |].
        by rewrite Hnone.
    + destruct t' as [m model| |[v'|e]]; simplify_eq/=.
      * (* still waiting for the interval *)
        split; simpl.
        -- intros j o. rewrite Hlog.
           destruct (decide (ev.1 = j)) as [<-|Hne].
           ++ rewrite list_lookup_insert_eq by done. rewrite Ht0.
              split; intros [= ->]; done.
           ++ by rewrite list_lookup_insert_ne.
        -- rewrite Hj.
           destruct (first_failure (settlements (after evs))) as [[j e]|]; [done |].
           rewrite Hnone. symmetry. f_equal.
           eapply (all_fulfilled_unsettled _ ev.1); [by apply list_lookup_insert_eq | done].
      * (* waiting for the TSVB response *)
        split; simpl.
        -- intros j o. rewrite Hlog.
           destruct (decide (ev.1 = j)) as [<-|Hne].
           ++ rewrite list_lookup_insert_eq by done. rewrite Ht0.
              split; intros [= ->]; done.
           ++ by rewrite list_lookup_insert_ne.
        -- rewrite Hj.
           destruct (first_failure (settlements (after evs))) as [[j e]|]; [done |].
           rewrite Hnone. symmetry. f_equal.
           eapply (all_fulfilled_unsettled _ ev.1); [by apply list_lookup_insert_eq | done].
      * (* the request is rejected *)
        split; simpl.
        -- intros j o. rewrite elem_of_app, list_elem_of_singleton.
           destruct (decide (ev.1 = j)) as [<-|Hne].
           ++ rewrite list_lookup_insert_eq by done. split.
              ** intros [Hin|[= <-]]; [by apply Hfresh in Hin | done].
              ** intros [= <-]. by right.
           ++ rewrite list_lookup_insert_ne by done. rewrite <- Hlog. split.
              ** intros [?|[= ? ?]]; [done | congruence].
              ** by left.
        -- rewrite first_failure_app. simpl. rewrite Hj.
           destruct (first_failure (settlements (after evs))) as [[j e']|]; [done |].
           by rewrite Hnone.
Qed.
End Execution.


(** ** The promise returned by [getMetrics] *)

Section Returned.
Variables (imp : Imports) (options : Options).

Abbreviation past_gate evs :=
  (run options (nodeField imp options)
     (spawn imp options (check_call imp options)) evs).

Lemma joined_fulfilled evs results :
  joined (past_gate evs) = Some (Fulfilled results) ↔
  tasks (past_gate evs) = (λ raw, Settled (Fulfilled raw)) <$> results.
Proof.
  destruct (joined_inv_run imp options evs) as [Hlog ->]. split.
  - destruct (first_failure _) as [[j e]|]; [done |].
    destruct (all_fulfilled _) as [vs|] eqn:Hall; [|done].
    intros [= <-]. by apply all_fulfilled_Some.
  - intros Hts.
    destruct (first_failure _) as [[j e]|] eqn:Hff.
    + apply first_failure_Some, Hlog in Hff. rewrite Hts, list_lookup_fmap in Hff.
      by destruct (results !! j).
    + apply all_fulfilled_Some in Hts. by rewrite Hts.
Qed.

Lemma joined_rejected evs e :
  joined (past_gate evs) = Some (Rejected e) ↔
  ∃ j, first_failure (settlements (past_gate evs)) = Some (j, e).
Proof.
  destruct (joined_inv_run imp options evs) as [Hlog ->].
  destruct (first_failure _) as [[j e']|].
  - split; [intros [= ->]; eauto | intros (j' & [= _ ->]); done].
  - split; [by destruct (all_fulfilled _) | by intros [? ?]].
Qed.

Lemma past_gate_lookup evs i :
  i < length (metrics options) → is_Some (tasks (past_gate evs) !! i).
Proof.
  intros Hi. apply lookup_lt_is_Some. by rewrite run_length, spawn_length.
Qed.

Lemma interval_call_traced evs i m create :
  metrics options !! i = Some m → tsvb imp m = Some create →
  (Some i, interval_call options (build_model options create)) ∈ trace (past_gate evs).
Proof.
  intros Hm Hc.
  destruct (run_trace options (nodeField imp options)
              (spawn imp options (check_call imp options)) evs) as [cs ->].
  apply elem_of_app. left. simpl. right.
  apply elem_of_tag_calls. by exists i, m, create.
Qed.

Lemma traced_call_inv evs i c :
  (Some i, c) ∈ trace (past_gate evs) → call_inv imp options evs (Some i, c).
Proof.
  destruct (trace_inv imp options evs) as (rest & -> & Hrest).
  intros [[=]|Hin]%elem_of_cons.
  by apply (proj1 (Forall_forall _ _) Hrest).
Qed.
End Returned.

Lemma concat_ordered {A} (nested : list (list A)) i j di dj :
  i < j → nested !! i = Some di → nested !! j = Some dj →
  ∃ a b c, concat nested = a ++ di ++ b ++ dj ++ c.
Proof.
  intros Hij Hi Hj.
  rewrite <- (take_drop_middle nested i di Hi).
  assert (drop (S i) nested !! (j - S i) = Some dj) as Hj'.
  { rewrite lookup_drop. rewrite <- Hj. f_equal. lia. }
  rewrite <- (take_drop_middle _ _ _ Hj').
  exists (concat (take i nested)), (concat (take (j - S i) (drop (S i) nested))),
    (concat (drop (S (j - S i)) (drop (S i) nested))).
  rewrite concat_app. simpl. rewrite concat_app. simpl. done.
Qed.

Lemma elem_of_flatten_fulfilled {A B} (f : A → outcome (list B)) xs nested d :
  Forall2 (λ x ds, f x = Fulfilled ds) xs nested →
  d ∈ flatten nested ↔ ∃ x ds, x ∈ xs ∧ f x = Fulfilled ds ∧ d ∈ ds.
Proof.
  unfold flatten. induction 1 as [|x ds xs nested Hx _ IH]; simpl.
  - rewrite elem_of_nil. split; [done |]. intros (? & ? & []%elem_of_nil & _).
  - rewrite elem_of_app, IH. split.
    + intros [Hd|(x' & ds' & Hx' & Hf & Hd)].
      * exists x, ds. split_and!; try done. by left.
      * exists x', ds'. split_and!; try done. by right.
    + intros (x' & ds' & [->|Hx']%elem_of_cons & Hf & Hd).
      * left. congruence.
      * right. eauto.
Qed.

Lemma first_failure_split {A} (log : list (nat * outcome A)) j e :
  first_failure log = Some (j, e) →
  ∃ before later, log = before ++ (j, Rejected e) :: later ∧
    Forall (λ s, ∃ v, s.2 = Fulfilled v) before.
Proof.
  induction log as [|[i [v|e']] log IH]; simpl; [done | |].
  - intros (before & later & -> & Hb)%IH.
    exists ((i, Fulfilled v) :: before), later. split; [done |].
    constructor; [by exists v | done].
  - intros [= -> ->]. exists [], log. split; [done | constructor].
Qed.

(** C5: every backend series of every accepted key is emitted with its id and
    label copied and its [[timestamp, value]] pairs turned into
    [{timestamp, value}] records, in the order received; in particular
    [[1000, 0.5], [2000, 0.6]] becomes
    [{timestamp:1000, value:0.5}, {timestamp:2000, value:0.6}]. *)
Theorem normalize_series_copied imp result ds :
  normalize imp result = Fulfilled ds →
  Forall2
    (λ id d,
       metric_id d = id ∧
       ∃ panel, get result id = Some panel ∧
         Forall2
           (λ raw s,
              series_id s = raw_id raw ∧ series_label s = raw_label raw ∧
              Forall2 (λ point p, point = (timestamp p, value p))
                (raw_data raw) (series_data s) ∧
              (raw_data raw = [(1000%Z, (1 # 2)%Q); (2000%Z, (3 # 5)%Q)] →
               series_data s =
                 [{| timestamp := 1000; value := (1 # 2)%Q |};
                  {| timestamp := 2000; value := (3 # 5)%Q |}]))
           (panel_series panel) (metric_series d))
    (metricIds result) ds.
Proof.
  intros H%normalize_fulfilled.
  eapply Forall2_impl; [exact H |].
  intros id d (_ & panel & Hp & ->)%convert_metric_fulfilled. simpl.
  split; [done |]. exists panel. split; [done |].
  apply Forall2_fmap_r, Forall_Forall2_diag, Forall_forall.
  intros raw _. simpl. split_and!; [done | done | | by intros ->].
  apply Forall2_fmap_r, Forall_Forall2_diag, Forall_forall.
  by intros [t v] _.
Qed.

Lemma normalize_series_copied_witness :
  normalize Sample.imports Sample.cpu_response =
    Fulfilled
      [{| metric_id := "cpu";
          metric_series :=
            [{| series_id := "cpu"; series_label := "CPU";
                series_data :=
                  [{| timestamp := 1000; value := (1 # 2)%Q |};
                   {| timestamp := 2000; value := (3 # 5)%Q |}] |}] |}] ∧
  Forall2
    (λ id d,
       metric_id d = id ∧
       ∃ panel, get Sample.cpu_response id = Some panel ∧
         Forall2
           (λ raw s,
              series_id s = raw_id raw ∧ series_label s = raw_label raw ∧
              Forall2 (λ point p, point = (timestamp p, value p))
                (raw_data raw) (series_data s) ∧
              (raw_data raw = [(1000%Z, (1 # 2)%Q); (2000%Z, (3 # 5)%Q)] →
               series_data s =
                 [{| timestamp := 1000; value := (1 # 2)%Q |};
                  {| timestamp := 2000; value := (3 # 5)%Q |}]))
           (panel_series panel) (metric_series d))
    (metricIds Sample.cpu_response)
    [{| metric_id := "cpu";
        metric_series :=
          [{| series_id := "cpu"; series_label := "CPU";
              series_data :=
                [{| timestamp := 1000; value := (1 # 2)%Q |};
                 {| timestamp := 2000; value := (3 # 5)%Q |}] |}] |}].
Proof.
  split; [reflexivity |].
  apply (normalize_series_copied Sample.imports Sample.cpu_response). reflexivity.
Defined.

(** C6, as stated, fails: with two unrecognised keys the error names the
    first one only, and its text ends in "is not a valid InfraMetric". *)
Lemma normalize_names_first_invalid_key :
  let panel := {| panel_series := [] |} in
  let result := [("foo", panel); ("type", panel); ("bar", panel)] in
  "bar" ∈ metricIds result ∧
  InventoryMetricRT_is Sample.imports "bar" = false ∧
  normalize Sample.imports result =
    Rejected (Error "foo is not a valid InfraMetric") ∧
  normalize Sample.imports result ≠ Rejected (Error "bar is not a valid metric") ∧
  normalize Sample.imports result ≠ Rejected (Error "foo is not a valid metric").
Proof.
  simpl. split_and!; [| reflexivity | reflexivity | discriminate | discriminate].
  apply elem_of_metricIds. split_and!; [| discriminate | discriminate].
  unfold keys. simpl. rewrite !elem_of_cons. auto.
Qed.

(** C6 (amended): normalization visits exactly the keys other than "type" and
    "uiRestrictions", in enumeration order; the reserved keys never produce an
    output entry; and as soon as one of the visited keys is not recognised by
    [InventoryMetricRT], normalization fails with
    "<id> is not a valid InfraMetric" for the first such key. *)
Theorem normalize_key_filter imp result :
  (∀ k, k ∈ metricIds result ↔
        k ∈ keys result ∧ k ≠ "type" ∧ k ≠ "uiRestrictions") ∧
  (∀ ds, normalize imp result = Fulfilled ds →
     metric_id <$> ds = metricIds result ∧
     ∀ d, d ∈ ds → metric_id d ≠ "type" ∧ metric_id d ≠ "uiRestrictions") ∧
  (∀ pre id post,
     metricIds result = pre ++ id :: post →
     Forall (λ k, InventoryMetricRT_is imp k = true) pre →
     InventoryMetricRT_is imp id = false →
     normalize imp result = Rejected (Error (id +:+ " is not a valid InfraMetric"))) ∧
  ((∃ id, id ∈ metricIds result ∧ InventoryMetricRT_is imp id = false) →
   ∃ id, id ∈ metricIds result ∧ InventoryMetricRT_is imp id = false ∧
     normalize imp result = Rejected (Error (id +:+ " is not a valid InfraMetric"))).
Proof.
  assert (∀ pre id post,
     metricIds result = pre ++ id :: post →
     Forall (λ k, InventoryMetricRT_is imp k = true) pre →
     InventoryMetricRT_is imp id = false →
     normalize imp result = Rejected (Error (id +:+ " is not a valid InfraMetric")))
    as Hfirst.
  { intros pre id post Hids Hpre Hid. apply map_throwing_rejected.
    exists pre, id, post. split_and!; [done | |].
    - apply Forall_forall. intros k Hk.
      pose proof (proj1 (Forall_forall _ _) Hpre k Hk) as Hrec.
      assert (k ∈ metricIds result) as [[panel Hp]%get_is_Some _]%elem_of_metricIds.
      { rewrite Hids, elem_of_app, elem_of_cons. auto. }
      eexists. apply convert_metric_fulfilled. eauto.
    - apply convert_metric_rejected; [|done].
      assert (id ∈ metricIds result) as [? _]%elem_of_metricIds; [|done].
      rewrite Hids, elem_of_app, elem_of_cons. auto. }
  split_and!.
  - apply elem_of_metricIds.
  - intros ds Hds. pose proof (normalize_ids _ _ _ Hds) as Hids. split; [done |].
    intros d Hd.
    assert (metric_id d ∈ metricIds result) as (_ & ? & ?)%elem_of_metricIds; [|done].
    rewrite <- Hids. by apply list_elem_of_fmap_2.
  - exact Hfirst.
  - intros (id & Hin & Hid).
    destruct (normalize imp result) as [ds|e] eqn:Hn.
    + apply normalize_fulfilled in Hn.
      apply list_elem_of_lookup in Hin as [n Hn'].
      destruct (Forall2_lookup_l _ _ _ _ _ Hn Hn') as (d & _ & Hd).
      apply convert_metric_fulfilled in Hd as [? _]. congruence.
    + apply map_throwing_rejected in Hn as (pre & id' & post & Hids & Hpre & Hid').
      assert (id' ∈ metricIds result) as Hin'. { rewrite Hids, elem_of_app, elem_of_cons. auto. }
      pose proof Hin' as [Hk _]%elem_of_metricIds.
      apply convert_metric_rejected in Hid' as [Hunrec ->]; [|done].
      exists id'. done.
Qed.

Lemma normalize_key_filter_witness :
  normalize Sample.imports
    [("cpu", {| panel_series := [] |}); ("uiRestrictions", {| panel_series := [] |});
     ("foo", {| panel_series := [] |}); ("bar", {| panel_series := [] |})] =
    Rejected (Error "foo is not a valid InfraMetric").
Proof.
  apply (proj1 (proj2 (proj2 (normalize_key_filter Sample.imports _)))
           ["cpu"] "foo" ["bar"]).
  - reflexivity.
  - repeat constructor.
  - reflexivity.
Defined.

(** C2: when the existence check reports the node absent, [getMetrics] is
    rejected with "<nodeId> does not exist.", no request is started and the
    only call made is the existence check; and in every execution the
    existence check is the first call, every other call being one made for a
    requested metric after it. *)
Theorem absent_node_no_metric_queries imp options replies :
  returned (getMetrics imp options (Fulfilled false) replies) =
    Some (Rejected (Error (nodeId (nodeIds options) +:+ " does not exist."))) ∧
  calls (getMetrics imp options (Fulfilled false) replies) =
    [(None, CheckValidNode (metricIndexPattern options) (nodeField imp options)
              (nodeId (nodeIds options)))] ∧
  requests (getMetrics imp options (Fulfilled false) replies) = [] ∧
  ∀ validNode, ∃ rest,
    calls (getMetrics imp options validNode replies) =
      (None, CheckValidNode (metricIndexPattern options) (nodeField imp options)
               (nodeId (nodeIds options))) :: rest ∧
    Forall
      (λ tc, ∃ i, tc.1 = Some i ∧ i < length (metrics options) ∧
         match tc.2 with
         | CheckValidNode _ _ _ => False
         | CalculateMetricInterval _ _ _ _ | MakeTSVBRequest _ _ _ => True
         end)
      rest.
Proof.
  split_and!; [done | done | done |].
  intros [[|]|e]; simpl; [|exists []; split; [done | constructor] ..].
  destruct (trace_inv imp options replies) as (rest & -> & Hrest).
  exists rest. split; [done |].
  eapply Forall_impl; [exact Hrest |].
  intros [o c] (i & m & create & Ho & Hm & _ & Hc). simpl in *.
  exists i. split_and!; [done | by eapply lookup_lt_Some |].
  destruct Hc as [->|(p & ci & _ & _ & Hd)]; [done |].
  apply dispatch_inv in Hd as [(_ & [=] & _)|(_ & _ & range & filters & [= ->])].
  done.
Qed.

(** C7, as stated, fails: of two ids without a model only the first is named,
    in a message of another form; and an absent node is reported instead. *)
Lemma unknown_metric_error_names_first :
  tsvb Sample.imports "nope" = None ∧
  returned (getMetrics Sample.imports (Sample.request ["bogus"; "nope"])
              (Fulfilled true) []) =
    Some (Rejected (Error "The TSVB model for bogus does not exist for host")) ∧
  returned (getMetrics Sample.imports (Sample.request ["bogus"; "nope"])
              (Fulfilled true) []) ≠
    Some (Rejected (Error "unknown metric model for nope/host")) ∧
  returned (getMetrics Sample.imports (Sample.request ["bogus"; "nope"])
              (Fulfilled false) []) =
    Some (Rejected (Error "node-1 does not exist.")).
Proof. split_and!; [reflexivity | reflexivity | discriminate | reflexivity]. Qed.

(** C7 (amended): when the node exists and some requested id has no model in
    the catalog, [getMetrics] is rejected with "The TSVB model for <id> does
    not exist for <nodeType>" where <id> is the first requested id without a
    model; the request of every id without a model is rejected with that
    message for its own id, and no call is ever made for it. *)
Theorem unknown_metric_rejected imp options replies pre m post :
  metrics options = pre ++ m :: post →
  Forall (λ m', is_Some (tsvb imp m')) pre →
  tsvb imp m = None →
  returned (getMetrics imp options (Fulfilled true) replies) =
    Some (Rejected (Error
      ("The TSVB model for " +:+ m +:+ " does not exist for " +:+ nodeType options))) ∧
  ∀ i m', metrics options !! i = Some m' → tsvb imp m' = None →
    requests (getMetrics imp options (Fulfilled true) replies) !! i =
      Some (Settled (Rejected (Error
        ("The TSVB model for " +:+ m' +:+ " does not exist for " +:+ nodeType options)))) ∧
    ∀ c, (Some i, c) ∉ calls (getMetrics imp options (Fulfilled true) replies).
Proof.
  intros Hms Hpre Hm. simpl. split.
  - assert (joined (spawn imp options (check_call imp options)) =
            Some (Rejected (Error (missingTSVBModelError m (nodeType options)))))
      as Hj.
    { simpl. rewrite Hms.
      by rewrite (early_first_failure imp options 0 pre m post Hpre Hm). }
    by rewrite (run_joined _ _ _ replies _ Hj).
  - intros i m' Hi Hm'. split.
    + destruct (past_gate_lookup imp options replies i) as [t Ht];
        [by eapply lookup_lt_Some |].
      rewrite Ht. destruct (tasks_inv _ _ _ _ _ Ht) as (m'' & Hi' & Hinv).
      rewrite Hi in Hi'. injection Hi' as <-. rewrite Hm' in Hinv. by rewrite Hinv.
    + intros c (i' & m'' & create & [= <-] & Hi' & Hcreate & _)%traced_call_inv.
      congruence.
Qed.

Lemma unknown_metric_rejected_witness :
  returned (getMetrics Sample.imports (Sample.request ["cpu"; "bogus"; "memory"])
              (Fulfilled true) [(0, IntervalReply (Fulfilled None))]) =
    Some (Rejected (Error "The TSVB model for bogus does not exist for host")).
Proof.
  apply (unknown_metric_rejected Sample.imports
           (Sample.request ["cpu"; "bogus"; "memory"])
           [(0, IntervalReply (Fulfilled None))] ["cpu"] "bogus" ["memory"]).
  - reflexivity.
  - repeat constructor. simpl. eauto.
  - reflexivity.
Defined.

(** C8: the existence check and every metric model are given the index
    pattern "<metricAlias>,<logAlias>", while every call of the interval
    calculator is given "<logAlias>,<metricAlias>"; and once the node is
    known to exist the interval calculator is called that way for every
    requested metric that has a model. *)
Theorem index_pattern_asymmetry imp options validNode replies :
  (∀ o c, (o, c) ∈ calls (getMetrics imp options validNode replies) →
     match c with
     | CheckValidNode indexPattern _ _ =>
         o = None ∧
         indexPattern =
           metricAlias (sourceConfiguration options) +:+ "," +:+
           logAlias (sourceConfiguration options)
     | CalculateMetricInterval indexPattern _ _ _ =>
         indexPattern =
           logAlias (sourceConfiguration options) +:+ "," +:+
           metricAlias (sourceConfiguration options)
     | MakeTSVBRequest model _ _ =>
         ∃ i m create ci, o = Some i ∧ metrics options !! i = Some m ∧
           tsvb imp m = Some create ∧
           model =
             apply_interval
               (create (fields_timestamp (fields (sourceConfiguration options)))
                  (metricAlias (sourceConfiguration options) +:+ "," +:+
                   logAlias (sourceConfiguration options))
                  (interval (timerange options))) ci
     end) ∧
  (validNode = Fulfilled true →
   ∀ i m create, metrics options !! i = Some m → tsvb imp m = Some create →
     (Some i,
      CalculateMetricInterval
        (logAlias (sourceConfiguration options) +:+ "," +:+
         metricAlias (sourceConfiguration options))
        (fields_timestamp (fields (sourceConfiguration options)))
        (timerange options)
        (requires
           (create (fields_timestamp (fields (sourceConfiguration options)))
              (metricAlias (sourceConfiguration options) +:+ "," +:+
               logAlias (sourceConfiguration options))
              (interval (timerange options)))))
     ∈ calls (getMetrics imp options validNode replies)).
Proof.
  split.
  - assert (∀ o c, (o, c) ∈ [check_call imp options] →
              o = None ∧ c = (check_call imp options).2) as Hgate.
    { intros o c [= -> ->]%list_elem_of_singleton. done. }
    destruct validNode as [[|]|e]; simpl;
      [|intros o c [-> ->]%Hgate; done ..].
    intros o c Hin.
    destruct (trace_inv imp options replies) as (rest & Htr & Hrest).
    rewrite Htr in Hin. apply elem_of_cons in Hin as [[= -> ->]|Hin]; [done |].
    destruct (proj1 (Forall_forall _ _) Hrest _ Hin)
      as (i & m & create & Ho & Hm & Hcreate & Hc).
    simpl in *. destruct Hc as [->|(p & ci & _ & _ & Hd)]; [done |].
    apply dispatch_inv in Hd as [(_ & [=] & _)|(_ & _ & range & filters & [= ->])].
    exists i, m, create, ci. done.
  - intros -> i m create Hm Hcreate.
    by apply (interval_call_traced imp options replies i m create).
Qed.

Lemma index_pattern_asymmetry_witness :
  (Some 1,
   CalculateMetricInterval "filebeat-*,metricbeat-*" "@timestamp"
     {| from := 0; to := 10000; interval := "10s" |} [])
  ∈ calls (getMetrics Sample.imports (Sample.request ["cpu"; "memory"])
             (Fulfilled true) [(0, IntervalReply (Fulfilled (Some Sample.seconds_30)))]).
Proof.
  apply (proj2 (index_pattern_asymmetry Sample.imports
                  (Sample.request ["cpu"; "memory"]) (Fulfilled true)
                  [(0, IntervalReply (Fulfilled (Some Sample.seconds_30)))])
           eq_refl 1 "memory" (Sample.standalone "memory" [])).
  - reflexivity.
  - reflexivity.
Defined.

(** C9: the model of every dispatched query is the model the catalog built
    for that metric from the interval hint of the request, with its interval
    slot overwritten by ">=<v>s" when the interval calculation of the metric
    returned a value v, and left unchanged when the calculation returned no
    value, as it does when the [requires] list of the model is empty. *)
Theorem interval_override imp options replies i model range filters :
  (Some i, MakeTSVBRequest model range filters)
    ∈ calls (getMetrics imp options (Fulfilled true) replies) →
  ∃ m create p ci,
    metrics options !! i = Some m ∧ tsvb imp m = Some create ∧
    (i, IntervalReply p) ∈ replies ∧
    calculateMetricInterval (requires (build_model options create)) p = Fulfilled ci ∧
    (∀ v, ci = Some v →
       model = set_interval (build_model options create) v ∧
       model_interval model = ">=" +:+ number_text v +:+ "s") ∧
    (ci = None →
       model = build_model options create ∧
       model_interval model =
         model_interval
           (create (fields_timestamp (fields (sourceConfiguration options)))
              (metricIndexPattern options) (interval (timerange options)))) ∧
    (requires (build_model options create) = [] →
     model = build_model options create).
Proof.
  intros (i' & m & create & [= <-] & Hm & Hcreate & Hc)%traced_call_inv.
  simpl in Hc. destruct Hc as [[=]|(p & ci & Hin & Hci & Hd)].
  apply dispatch_inv in Hd as [(_ & [=] & _)|(_ & _ & range' & filters' & [= -> _ _])].
  exists m, create, p, ci. split_and!; try done.
  - intros v ->. simpl.
    assert (number_truthy v = true) as ->; [|done].
    unfold calculateMetricInterval in Hci.
    destruct (requires (build_model options create)); [done |].
    destruct p as [[w|]|e]; simplify_eq/=. done.
  - by intros ->.
  - intros Hreq. rewrite Hreq in Hci. simpl in Hci. by injection Hci as <-.
Qed.

Lemma interval_override_witness :
  ∃ m create p ci,
    metrics (Sample.request ["cpu"]) !! 0 = Some m ∧
    tsvb Sample.imports m = Some create ∧
    (0, IntervalReply p) ∈ [(0, IntervalReply (Fulfilled (Some Sample.seconds_30)))] ∧
    calculateMetricInterval
      (requires (build_model (Sample.request ["cpu"]) create)) p = Fulfilled ci ∧
    (∀ v, ci = Some v →
       set_interval
         (build_model (Sample.request ["cpu"]) (Sample.standalone "cpu" ["system"]))
         (number_of_width Sample.seconds_30)
         = set_interval (build_model (Sample.request ["cpu"]) create) v ∧
       model_interval
         (set_interval
            (build_model (Sample.request ["cpu"]) (Sample.standalone "cpu" ["system"]))
            (number_of_width Sample.seconds_30))
         = ">=" +:+ number_text v +:+ "s") ∧
    (ci = None →
       set_interval
         (build_model (Sample.request ["cpu"]) (Sample.standalone "cpu" ["system"]))
         (number_of_width Sample.seconds_30)
         = build_model (Sample.request ["cpu"]) create ∧
       model_interval
         (set_interval
            (build_model (Sample.request ["cpu"]) (Sample.standalone "cpu" ["system"]))
            (number_of_width Sample.seconds_30))
         = model_interval
             (create (fields_timestamp (fields (sourceConfiguration (Sample.request ["cpu"]))))
                (metricIndexPattern (Sample.request ["cpu"]))
                (interval (timerange (Sample.request ["cpu"]))))) ∧
    (requires (build_model (Sample.request ["cpu"]) create) = [] →
     set_interval
       (build_model (Sample.request ["cpu"]) (Sample.standalone "cpu" ["system"]))
       (number_of_width Sample.seconds_30)
       = build_model (Sample.request ["cpu"]) create).
Proof.
  apply (interval_override Sample.imports (Sample.request ["cpu"])
           [(0, IntervalReply (Fulfilled (Some Sample.seconds_30)))] 0
           (set_interval
              (build_model (Sample.request ["cpu"]) (Sample.standalone "cpu" ["system"]))
              (number_of_width Sample.seconds_30))
           {| min := 0; max := 10000 |}
           [{| match_field := "host.name"; match_value := "node-1" |}]).
  vm_compute. do 2 right. left.
Defined.

(** C3, as stated, fails: the interval calculator has already been called for
    the cloud-scoped metric, with a non-empty [requires] list, when the
    missing cloud id is reported; and an absent node is reported instead. *)
Lemma cloud_check_follows_interval_call :
  returned (getMetrics Sample.imports (Sample.request ["awsOverview"])
              (Fulfilled true) [(0, IntervalReply (Fulfilled (Some Sample.seconds_60)))]) =
    Some (Rejected (Error
      "Model for awsOverview requires a cloudId, but none was given for node-1.")) ∧
  calls (getMetrics Sample.imports (Sample.request ["awsOverview"])
           (Fulfilled true) [(0, IntervalReply (Fulfilled (Some Sample.seconds_60)))]) =
    [(None, CheckValidNode "metricbeat-*,filebeat-*" "host.name" "node-1");
     (Some 0,
      CalculateMetricInterval "filebeat-*,metricbeat-*" "@timestamp"
        {| from := 0; to := 10000; interval := "10s" |} ["aws"])] ∧
  returned (getMetrics Sample.imports (Sample.request ["awsOverview"])
              (Fulfilled false) [(0, IntervalReply (Fulfilled (Some Sample.seconds_60)))]) =
    Some (Rejected (Error "node-1 does not exist.")).
Proof. split_and!; reflexivity. Qed.

(** C3 (amended): when the node exists, for a requested metric whose model is
    cloud-scoped while [cloudId] is absent, the metric query is never
    dispatched and [getMetrics] is never fulfilled; the interval calculator
    is called for the metric first, and once it has answered the request of
    the metric is rejected: with "Model for <metricId> requires a cloudId, but
    none was given for <nodeId>." when the calculation succeeded, with the
    failure of the calculation otherwise. *)
Theorem cloud_model_without_cloudId imp options replies i m create :
  metrics options !! i = Some m →
  tsvb imp m = Some create →
  is_cloud (build_model options create) = true →
  cloudId (nodeIds options) = None →
  (∀ model range filters,
     (Some i, MakeTSVBRequest model range filters)
       ∉ calls (getMetrics imp options (Fulfilled true) replies)) ∧
  (Some i, interval_call options (build_model options create))
    ∈ calls (getMetrics imp options (Fulfilled true) replies) ∧
  (∀ out, returned (getMetrics imp options (Fulfilled true) replies)
          ≠ Some (Fulfilled out)) ∧
  ((requests (getMetrics imp options (Fulfilled true) replies) !! i =
      Some (AwaitInterval m (build_model options create)) ∧
    ∀ p, (i, IntervalReply p) ∉ replies) ∨
   ∃ p e, (i, IntervalReply p) ∈ replies ∧
     requests (getMetrics imp options (Fulfilled true) replies) !! i =
       Some (Settled (Rejected e)) ∧
     (calculateMetricInterval (requires (build_model options create)) p = Rejected e ∨
      (∃ ci, calculateMetricInterval (requires (build_model options create)) p
             = Fulfilled ci) ∧
      e = Error ("Model for " +:+ m +:+
                 " requires a cloudId, but none was given for " +:+
                 nodeId (nodeIds options) +:+ "."))).
Proof.
  intros Hm Hcreate Hcloud Hid.
  assert (cloudId_missing options (build_model options create) = true) as Hmiss.
  { unfold cloudId_missing. by rewrite Hcloud, Hid. }
  destruct (past_gate_lookup imp options replies i) as [t Ht];
    [by eapply lookup_lt_Some |].
  pose proof (tasks_inv _ _ _ _ _ Ht) as (m' & Hm' & Hinv).
  rewrite Hm in Hm'. injection Hm' as <-. rewrite Hcreate in Hinv. simpl in Hinv.
  simpl. split_and!.
  - intros model range filters
      (i' & m' & create' & [= <-] & Hm' & Hcreate' & Hc)%traced_call_inv.
    rewrite Hm in Hm'. injection Hm' as <-.
    rewrite Hcreate in Hcreate'. injection Hcreate' as <-.
    simpl in Hc. destruct Hc as [[=]|(p & ci & _ & _ & Hd)].
    apply dispatch_inv in Hd as [(_ & [=] & _)|(Hok & _)]. congruence.
  - by apply interval_call_traced with m.
  - intros out Hout.
    destruct (joined _) as [[results|e]|] eqn:Hj; [|done..].
    apply joined_fulfilled in Hj. rewrite Hj, list_lookup_fmap in Ht.
    destruct (results !! i) as [raw|]; [|done]. injection Ht as <-.
    destruct Hinv as [? _]. congruence.
  - rewrite Ht. destruct t as [m' model| |[v|e]].
    + left. destruct Hinv as (-> & -> & Hno). done.
    + congruence.
    + destruct Hinv as [? _]. congruence.
    + right. destruct Hinv as [(p & Hin & Hp)|[? _]]; [|congruence].
      exists p, e. split_and!; [done | done |].
      destruct Hp as [?|(? & _ & ->)]; [by left | by right].
Qed.

Lemma cloud_model_without_cloudId_witness :
  requests (getMetrics Sample.imports (Sample.request ["cpu"; "awsOverview"])
              (Fulfilled true) [(1, IntervalReply (Fulfilled (Some Sample.seconds_60)))]) !! 1 =
    Some (Settled (Rejected (Error
      "Model for awsOverview requires a cloudId, but none was given for node-1."))) ∧
  ∀ model range filters,
    (Some 1, MakeTSVBRequest model range filters)
      ∉ calls (getMetrics Sample.imports (Sample.request ["cpu"; "awsOverview"])
                 (Fulfilled true) [(1, IntervalReply (Fulfilled (Some Sample.seconds_60)))]).
Proof.
  split; [reflexivity |].
  apply (cloud_model_without_cloudId Sample.imports
           (Sample.request ["cpu"; "awsOverview"])
           [(1, IntervalReply (Fulfilled (Some Sample.seconds_60)))] 1 "awsOverview"
           (Sample.cloud "awsOverview" ["aws"])); reflexivity.
Defined.

(** C4: when the node exists and the request of some metric is rejected,
    [getMetrics] is rejected with the error of the request that was rejected
    first, whatever the other requests did, and is never fulfilled with a
    list of results. *)
Theorem first_failure_rejects imp options replies i e0 :
  requests (getMetrics imp options (Fulfilled true) replies) !! i =
    Some (Settled (Rejected e0)) →
  ∃ j e before later,
    settled_order (getMetrics imp options (Fulfilled true) replies) =
      before ++ (j, Rejected e) :: later ∧
    Forall (λ s, ∃ v, s.2 = Fulfilled v) before ∧
    requests (getMetrics imp options (Fulfilled true) replies) !! j =
      Some (Settled (Rejected e)) ∧
    returned (getMetrics imp options (Fulfilled true) replies) = Some (Rejected e) ∧
    ∀ out, returned (getMetrics imp options (Fulfilled true) replies)
           ≠ Some (Fulfilled out).
Proof.
  simpl. intros Hi.
  destruct (joined_inv_run imp options replies) as [Hlog Hj].
  destruct (first_failure _) as [[j e]|] eqn:Hff.
  - pose proof (first_failure_Some _ _ _ Hff) as Hin%Hlog.
    apply first_failure_split in Hff as (before & later & Hsplit & Hbefore).
    exists j, e, before, later. rewrite Hj. done.
  - apply Hlog in Hi. by apply (proj1 (first_failure_None _) Hff) in Hi.
Qed.

Lemma first_failure_rejects_witness :
  returned (getMetrics Sample.imports (Sample.request ["cpu"; "memory"])
              (Fulfilled true)
              [(0, IntervalReply (Fulfilled None));
               (1, IntervalReply (Fulfilled None));
               (1, TSVBReply (Rejected (Error "search_phase_execution_exception")));
               (0, TSVBReply (Fulfilled Sample.cpu_response))]) =
    Some (Rejected (Error "search_phase_execution_exception")) ∧
  ∃ j e before later,
    settled_order (getMetrics Sample.imports (Sample.request ["cpu"; "memory"])
              (Fulfilled true)
              [(0, IntervalReply (Fulfilled None));
               (1, IntervalReply (Fulfilled None));
               (1, TSVBReply (Rejected (Error "search_phase_execution_exception")));
               (0, TSVBReply (Fulfilled Sample.cpu_response))]) =
      before ++ (j, Rejected e) :: later ∧
    Forall (λ s, ∃ v, s.2 = Fulfilled v) before ∧
    requests (getMetrics Sample.imports (Sample.request ["cpu"; "memory"])
              (Fulfilled true)
              [(0, IntervalReply (Fulfilled None));
               (1, IntervalReply (Fulfilled None));
               (1, TSVBReply (Rejected (Error "search_phase_execution_exception")));
               (0, TSVBReply (Fulfilled Sample.cpu_response))]) !! j =
      Some (Settled (Rejected e)) ∧
    returned (getMetrics Sample.imports (Sample.request ["cpu"; "memory"])
              (Fulfilled true)
              [(0, IntervalReply (Fulfilled None));
               (1, IntervalReply (Fulfilled None));
               (1, TSVBReply (Rejected (Error "search_phase_execution_exception")));
               (0, TSVBReply (Fulfilled Sample.cpu_response))]) = Some (Rejected e) ∧
    ∀ out, returned (getMetrics Sample.imports (Sample.request ["cpu"; "memory"])
              (Fulfilled true)
              [(0, IntervalReply (Fulfilled None));
               (1, IntervalReply (Fulfilled None));
               (1, TSVBReply (Rejected (Error "search_phase_execution_exception")));
               (0, TSVBReply (Fulfilled Sample.cpu_response))])
           ≠ Some (Fulfilled out).
Proof.
  split; [reflexivity |].
  apply (first_failure_rejects Sample.imports (Sample.request ["cpu"; "memory"])
           [(0, IntervalReply (Fulfilled None));
            (1, IntervalReply (Fulfilled None));
            (1, TSVBReply (Rejected (Error "search_phase_execution_exception")));
            (0, TSVBReply (Fulfilled Sample.cpu_response))]
           1 (Error "search_phase_execution_exception")).
  reflexivity.
Defined.

(** C1, as stated, fails: the node exists, the requested id has a model and
    its query succeeds, yet [getMetrics] is rejected because the response
    carries a key that [InventoryMetricRT] does not recognise. *)
Lemma fulfilled_queries_can_be_rejected :
  is_Some (tsvb Sample.imports "cpu") ∧
  requests (getMetrics Sample.imports (Sample.request ["cpu"]) (Fulfilled true)
              [(0, IntervalReply (Fulfilled None));
               (0, TSVBReply (Fulfilled [("custom", {| panel_series := [] |})]))]) =
    [Settled (Fulfilled [("custom", {| panel_series := [] |})])] ∧
  returned (getMetrics Sample.imports (Sample.request ["cpu"]) (Fulfilled true)
              [(0, IntervalReply (Fulfilled None));
               (0, TSVBReply (Fulfilled [("custom", {| panel_series := [] |})]))]) =
    Some (Rejected (Error "custom is not a valid InfraMetric")).
Proof. split_and!; [simpl; eauto | reflexivity | reflexivity]. Qed.

(** C1 (amended): when the node exists, the request of every metric is
    fulfilled and every key of every response other than "type" and
    "uiRestrictions" is recognised by [InventoryMetricRT], [getMetrics]
    returns exactly the flattened normalized results of the metrics: an entry
    is in the output if and only if it is in the normalized result of one of
    the responses, and its id is a key of that response. *)
Theorem getMetrics_flattened_union imp options replies results :
  requests (getMetrics imp options (Fulfilled true) replies) =
    (λ raw, Settled (Fulfilled raw)) <$> results →
  (∀ raw id, raw ∈ results → id ∈ metricIds raw → InventoryMetricRT_is imp id = true) →
  ∃ nested,
    Forall2 (λ raw ds, normalize imp raw = Fulfilled ds) results nested ∧
    length results = length (metrics options) ∧
    returned (getMetrics imp options (Fulfilled true) replies) =
      Some (Fulfilled (flatten nested)) ∧
    (∀ d, d ∈ flatten nested ↔
          ∃ raw ds, raw ∈ results ∧ normalize imp raw = Fulfilled ds ∧ d ∈ ds) ∧
    (∀ d, d ∈ flatten nested → ∃ raw, raw ∈ results ∧ metric_id d ∈ metricIds raw).
Proof.
  simpl. intros Hts Hrec.
  assert (∃ nested, map_throwing (normalize imp) results = Fulfilled nested)
    as [nested Hnested].
  { apply map_throwing_total, Forall_forall. intros raw Hraw.
    apply normalize_recognized, Forall_forall. intros id Hid. by eapply Hrec. }
  pose proof (proj1 (map_throwing_fulfilled _ _ _) Hnested) as Hall.
  pose proof (λ d, elem_of_flatten_fulfilled (normalize imp) results nested d Hall)
    as Hmem.
  exists nested. split_and!.
  - done.
  - apply (f_equal length) in Hts.
    by rewrite run_length, spawn_length, length_fmap in Hts.
  - apply joined_fulfilled in Hts. rewrite Hts. unfold reshape. by rewrite Hnested.
  - intros d. by apply Hmem.
  - intros d (raw & ds & Hraw & Hds & Hd)%Hmem. exists raw. split; [done |].
    rewrite <- (normalize_ids _ _ _ Hds). by apply list_elem_of_fmap_2.
Qed.

Lemma getMetrics_flattened_union_witness :
  returned (getMetrics Sample.imports (Sample.request ["cpu"; "memory"])
              (Fulfilled true)
              [(1, IntervalReply (Fulfilled None));
               (0, IntervalReply (Fulfilled (Some Sample.seconds_30)));
               (1, TSVBReply (Fulfilled Sample.memory_response));
               (0, TSVBReply (Fulfilled Sample.cpu_response))]) =
    Some (Fulfilled
      [{| metric_id := "cpu";
          metric_series :=
            [{| series_id := "cpu"; series_label := "CPU";
                series_data :=
                  [{| timestamp := 1000; value := (1 # 2)%Q |};
                   {| timestamp := 2000; value := (3 # 5)%Q |}] |}] |};
       {| metric_id := "memory";
          metric_series :=
            [{| series_id := "memory"; series_label := "Memory";
                series_data := [{| timestamp := 1000; value := (40 # 1)%Q |}] |}] |}]) ∧
  ∃ nested,
    Forall2 (λ raw ds, normalize Sample.imports raw = Fulfilled ds)
      [Sample.cpu_response; Sample.memory_response] nested ∧
    length [Sample.cpu_response; Sample.memory_response] =
      length (metrics (Sample.request ["cpu"; "memory"])) ∧
    returned (getMetrics Sample.imports (Sample.request ["cpu"; "memory"])
              (Fulfilled true)
              [(1, IntervalReply (Fulfilled None));
               (0, IntervalReply (Fulfilled (Some Sample.seconds_30)));
               (1, TSVBReply (Fulfilled Sample.memory_response));
               (0, TSVBReply (Fulfilled Sample.cpu_response))]) =
      Some (Fulfilled (flatten nested)) ∧
    (∀ d, d ∈ flatten nested ↔
          ∃ raw ds, raw ∈ [Sample.cpu_response; Sample.memory_response] ∧
            normalize Sample.imports raw = Fulfilled ds ∧ d ∈ ds) ∧
    (∀ d, d ∈ flatten nested →
          ∃ raw, raw ∈ [Sample.cpu_response; Sample.memory_response] ∧
            metric_id d ∈ metricIds raw).
Proof.
  split; [reflexivity |].
  apply (getMetrics_flattened_union Sample.imports (Sample.request ["cpu"; "memory"])
           [(1, IntervalReply (Fulfilled None));
            (0, IntervalReply (Fulfilled (Some Sample.seconds_30)));
            (1, TSVBReply (Fulfilled Sample.memory_response));
            (0, TSVBReply (Fulfilled Sample.cpu_response))]
           [Sample.cpu_response; Sample.memory_response]).
  - reflexivity.
  - intros raw id Hraw Hid.
    apply elem_of_cons in Hraw as [->|Hraw];
      [|apply list_elem_of_singleton in Hraw as ->];
      apply list_elem_of_singleton in Hid as ->; reflexivity.
Defined.

(** C10: when [getMetrics] is fulfilled, its output is the concatenation, in
    the order of [options.metrics], of the normalized responses of the
    metrics, whatever the order in which the replies arrived: the entries
    that come from [metrics[i]] stand before those that come from
    [metrics[j]] whenever i < j. *)
Theorem getMetrics_preserves_metric_order imp options replies out :
  returned (getMetrics imp options (Fulfilled true) replies) = Some (Fulfilled out) →
  ∃ results nested,
    requests (getMetrics imp options (Fulfilled true) replies) =
      (λ raw, Settled (Fulfilled raw)) <$> results ∧
    length nested = length (metrics options) ∧
    Forall2 (λ raw ds, normalize imp raw = Fulfilled ds) results nested ∧
    (∀ i raw, results !! i = Some raw →
       ∃ m, metrics options !! i = Some m ∧
         (i, TSVBReply (Fulfilled raw)) ∈ replies) ∧
    out = concat nested ∧
    ∀ i j di dj, i < j → nested !! i = Some di → nested !! j = Some dj →
      ∃ a b c, out = a ++ di ++ b ++ dj ++ c.
Proof.
  simpl. destruct (joined _) as [[results|e]|] eqn:Hj; [|done..].
  intros [= Hout]. apply reshape_fulfilled in Hout as (nested & Hall & ->).
  apply joined_fulfilled in Hj.
  exists results, nested. split_and!; [done | | done | | done |].
  - rewrite <- (Forall2_length _ _ _ Hall).
    apply (f_equal length) in Hj.
    by rewrite run_length, spawn_length, length_fmap in Hj.
  - intros i raw Hi.
    assert (tasks (run options (nodeField imp options)
                     (spawn imp options (check_call imp options)) replies) !! i
            = Some (Settled (Fulfilled raw))) as Ht.
    { by rewrite Hj, list_lookup_fmap, Hi. }
    apply tasks_inv in Ht as (m & Hm & Hinv). exists m. split; [done |].
    destruct (tsvb imp m); [|done]. by destruct Hinv.
  - intros i j di dj. apply concat_ordered.
Qed.

Lemma getMetrics_preserves_metric_order_witness :
  ∃ results nested,
    requests (getMetrics Sample.imports (Sample.request ["cpu"; "memory"])
              (Fulfilled true)
              [(1, IntervalReply (Fulfilled None));
               (0, IntervalReply (Fulfilled (Some Sample.seconds_30)));
               (1, TSVBReply (Fulfilled Sample.memory_response));
               (0, TSVBReply (Fulfilled Sample.cpu_response))]) =
      (λ raw, Settled (Fulfilled raw)) <$> results ∧
    length nested = length (metrics (Sample.request ["cpu"; "memory"])) ∧
    Forall2 (λ raw ds, normalize Sample.imports raw = Fulfilled ds) results nested ∧
    (∀ i raw, results !! i = Some raw →
       ∃ m, metrics (Sample.request ["cpu"; "memory"]) !! i = Some m ∧
         (i, TSVBReply (Fulfilled raw))
           ∈ [(1, IntervalReply (Fulfilled None));
              (0, IntervalReply (Fulfilled (Some Sample.seconds_30)));
              (1, TSVBReply (Fulfilled Sample.memory_response));
              (0, TSVBReply (Fulfilled Sample.cpu_response))]) ∧
    [{| metric_id := "cpu";
        metric_series :=
          [{| series_id := "cpu"; series_label := "CPU";
              series_data :=
                [{| timestamp := 1000; value := (1 # 2)%Q |};
                 {| timestamp := 2000; value := (3 # 5)%Q |}] |}] |};
     {| metric_id := "memory";
        metric_series :=
          [{| series_id := "memory"; series_label := "Memory";
              series_data := [{| timestamp := 1000; value := (40 # 1)%Q |}] |}] |}]
      = concat nested ∧
    ∀ i j di dj, i < j → nested !! i = Some di → nested !! j = Some dj →
      ∃ a b c,
        [{| metric_id := "cpu";
            metric_series :=
              [{| series_id := "cpu"; series_label := "CPU";
                  series_data :=
                    [{| timestamp := 1000; value := (1 # 2)%Q |};
                     {| timestamp := 2000; value := (3 # 5)%Q |}] |}] |};
         {| metric_id := "memory";
            metric_series :=
              [{| series_id := "memory"; series_label := "Memory";
                  series_data := [{| timestamp := 1000; value := (40 # 1)%Q |}] |}] |}]
          = a ++ di ++ b ++ dj ++ c.
Proof.
  apply (getMetrics_preserves_metric_order Sample.imports
           (Sample.request ["cpu"; "memory"])
           [(1, IntervalReply (Fulfilled None));
            (0, IntervalReply (Fulfilled (Some Sample.seconds_30)));
            (1, TSVBReply (Fulfilled Sample.memory_response));
            (0, TSVBReply (Fulfilled Sample.cpu_response))]).
  reflexivity.
Defined.

(** ** Requests do not interfere *)

Lemma calls_for_tagged i j (cs : list call) :
  calls_for i (pair (Some j) <$> cs) = if decide (j = i) then cs else [].
Proof.
  induction cs as [|c cs IH].
  - by destruct (decide (j = i)).
  - rewrite fmap_cons. change (calls_for i ((Some j, c) :: (pair (Some j) <$> cs)))
      with (match (if decide (Some j = Some i) then Some c else None) with
            | Some y => y :: calls_for i (pair (Some j) <$> cs)
            | None => calls_for i (pair (Some j) <$> cs)
            end).
    rewrite IH. destruct (decide (Some j = Some i)) as [[= ->]|Hne].
    + by rewrite !decide_True by done.
    + by rewrite !decide_False by congruence.
Qed.

Lemma calls_for_app i tr1 tr2 :
  calls_for i (tr1 ++ tr2) = calls_for i tr1 ++ calls_for i tr2.
Proof. apply omap_app. Qed.

Lemma calls_for_tag_calls i n (started : list (task * list call)) :
  calls_for i (tag_calls n started) =
    if decide (n ≤ i) then default [] (snd <$> started !! (i - n)) else [].
Proof.
  revert n. induction started as [|[t cs] rest IH]; intros n; simpl.
  - by destruct (decide (n ≤ i)).
  - rewrite calls_for_app, calls_for_tagged, IH.
    repeat case_decide; subst; try lia; simpl.
    + by rewrite Nat.sub_diag, app_nil_r.
    + by replace (i - n) with (S (i - S n)) by lia.
    + done.
Qed.

Lemma elem_of_replies_to i r replies :
  r ∈ replies_to i replies ↔ (i, r) ∈ replies.
Proof.
  unfold replies_to. rewrite list_elem_of_omap. split.
  - intros ([j r'] & Hin & Hd). simpl in Hd.
    destruct (decide (j = i)) as [->|]; [|done]. by injection Hd as ->.
  - intros Hin. exists (i, r). split; [done |]. simpl. by rewrite decide_True.
Qed.

Section Projection.
Variables (imp : Imports) (options : Options).

Abbreviation gate_passed evs :=
  (run options (nodeField imp options)
     (spawn imp options (check_call imp options)) evs).

(** The request of a metric evolves as if it were alone: its state and its
    calls are those of [run_task] on the replies addressed to it. *)
Lemma request_projection evs i m :
  metrics options !! i = Some m →
  tasks (gate_passed evs) !! i =
    Some (run_task options (nodeField imp options) (start imp options m)
            (replies_to i evs)).1 ∧
  calls_for i (trace (gate_passed evs)) =
    (run_task options (nodeField imp options) (start imp options m)
       (replies_to i evs)).2.
Proof.
  intros Hm. induction evs as [|ev evs [IHt IHc]] using rev_ind.
  - change (gate_passed []) with (spawn imp options (check_call imp options)).
    split.
    + rewrite spawn_tasks_lookup, Hm. done.
    + change (trace (spawn imp options (check_call imp options)))
        with ([check_call imp options] ++
              tag_calls 0 (start imp options <$> metrics options)).
      rewrite calls_for_app, calls_for_tag_calls, decide_True by lia.
      rewrite Nat.sub_0_r, list_lookup_fmap, Hm. done.
  - rewrite run_snoc. unfold replies_to in *. rewrite omap_app. simpl.
    unfold run_task in *. rewrite foldl_app.
    set (local := foldl _ _ _) in *.
    unfold step. destruct (decide (ev.1 = i)) as [Heq|Hne]; simpl.
    + rewrite Heq, IHt. unfold task_step.
      destruct (resume options (nodeField imp options) local.1 ev.2)
        as [[t' cs]|]; [|done].
      simpl. split.
      * apply list_lookup_insert_eq. by eapply lookup_lt_Some.
      * by rewrite calls_for_app, calls_for_tagged, decide_True, IHc.
    + destruct (tasks (gate_passed evs) !! ev.1) as [t0|]; [|done].
      destruct (resume options (nodeField imp options) t0 ev.2)
        as [[t' cs]|]; [|done].
      simpl. split.
      * by rewrite list_lookup_insert_ne.
      * rewrite calls_for_app, calls_for_tagged, decide_False by done.
        by rewrite app_nil_r.
Qed.
End Projection.

(** The shapes a request can take, with the calls it has made. *)
Lemma run_task_shapes imp options nf m rs :
  let tc := run_task options nf (start imp options m) rs in
  match tsvb imp m with
  | None =>
      tc = (Settled (Rejected (Error (missingTSVBModelError m (nodeType options)))), [])
  | Some create =>
      let model := build_model options create in
      (tc = (AwaitInterval m model, [interval_call options model])) ∨
      (∃ e, tc = (Settled (Rejected e), [interval_call options model])) ∨
      (∃ ci q o, dispatch options nf m model ci = (AwaitTSVB, [q]) ∧
         (tc = (AwaitTSVB, [interval_call options model; q]) ∨
          tc = (Settled o, [interval_call options model; q])))
  end.
Proof.
  induction rs as [|r rs IH] using rev_ind; simpl in *.
  - unfold start. destruct (tsvb imp m); simpl; [by left | done].
  - unfold run_task in *. rewrite foldl_snoc.
    set (tc := foldl _ _ _) in *. unfold task_step.
    destruct (tsvb imp m) as [create|].
    + destruct IH as [->|[(e & ->)|(ci & q & o & Hd & [->| ->])]]; cbn [fst snd].
      * destruct r as [p|o]; simpl; [|by left].
        destruct (calculateMetricInterval _ p) as [ci|e]; [|right; left; eauto].
        destruct (dispatch options nf m (build_model options create) ci)
          as [t' cs] eqn:Hd.
        pose proof Hd as [(_ & -> & ->)|(_ & -> & range & filters & ->)]%dispatch_inv.
        -- right. left. eauto.
        -- right. right. exists ci, (MakeTSVBRequest
             (apply_interval (build_model options create) ci) range filters),
             (Rejected (Error "")). split; [done | by left].
      * rewrite resume_settled. right. left. eauto.
      * destruct r as [p|o']; simpl.
        -- right. right. exists ci, q, o. split; [done | by left].
        -- right. right. exists ci, q, o'. split; [done | by right].
      * rewrite resume_settled. right. right. exists ci, q, o. split; [done | by right].
    + rewrite IH. simpl. by destruct r.
Qed.

(** ** Further properties of the adapter *)

(** X1: every metric query carries the time range of the request as
    [{min, max}] and exactly one match filter.  The filter is on the model's
    [map_field_to] when that is set, on the id field of the node type
    otherwise, and matches the cloud id for a cloud-scoped model (which is
    then present and not empty) and the node id for any other model. *)
Theorem query_filter_selection imp options replies i model range filters :
  (Some i, MakeTSVBRequest model range filters)
    ∈ calls (getMetrics imp options (Fulfilled true) replies) →
  range = {| min := from (timerange options); max := to (timerange options) |} ∧
  ∃ field id,
    filters = [{| match_field := field; match_value := id |}] ∧
    field =
      match map_field_to model with
      | Some f => if String.eqb f "" then nodeField imp options else f
      | None => nodeField imp options
      end ∧
    if is_cloud model
    then cloudId (nodeIds options) = Some id ∧ id ≠ ""
    else id = nodeId (nodeIds options).
Proof.
  intros (i' & m & create & [= <-] & Hm & Hcreate & Hc)%traced_call_inv.
  simpl in Hc. destruct Hc as [[=]|(p & ci & _ & _ & Hd)].
  unfold dispatch in Hd.
  destruct (cloudId_missing options _) eqn:Hmiss; [done |].
  injection Hd as <- <- <-. split; [done |].
  set (model := apply_interval (build_model options create) ci) in *.
  eexists _, _. split_and!; [reflexivity | |].
  - destruct (map_field_to model) as [f|]; [|done].
    unfold truthy_string. by destruct (String.eqb f "").
  - unfold cloudId_missing in Hmiss. destruct (is_cloud model); [|done].
    simpl in Hmiss. apply negb_false_iff in Hmiss.
    destruct (cloudId (nodeIds options)) as [s|]; [|done]. simpl in *.
    split; [done |]. intros ->. done.
Qed.

Lemma query_filter_selection_witness :
  {| min := 0; max := 10000 |} =
    {| min := from (timerange (Sample.request ["cpu"]));
       max := to (timerange (Sample.request ["cpu"])) |} ∧
  ∃ field id,
    [{| match_field := "host.name"; match_value := "node-1" |}] =
      [{| match_field := field; match_value := id |}] ∧
    field =
      match map_field_to
              (set_interval
                 (build_model (Sample.request ["cpu"])
                    (Sample.standalone "cpu" ["system"]))
                 (number_of_width Sample.seconds_30)) with
      | Some f => if String.eqb f "" then nodeField Sample.imports (Sample.request ["cpu"]) else f
      | None => nodeField Sample.imports (Sample.request ["cpu"])
      end ∧
    if is_cloud
         (set_interval
            (build_model (Sample.request ["cpu"])
               (Sample.standalone "cpu" ["system"]))
                 (number_of_width Sample.seconds_30))
    then cloudId (nodeIds (Sample.request ["cpu"])) = Some id ∧ id ≠ ""
    else id = nodeId (nodeIds (Sample.request ["cpu"])).
Proof.
  apply (query_filter_selection Sample.imports (Sample.request ["cpu"])
           [(0, IntervalReply (Fulfilled (Some Sample.seconds_30)))] 0).
  vm_compute. do 2 right. left.
Defined.

(** X2: for each requested metric the adapter calls nothing when the metric
    has no model, and otherwise calls the interval calculator exactly once,
    followed by at most one metric query, whatever replies arrive and
    however often. *)
Theorem calls_per_metric imp options replies i m :
  metrics options !! i = Some m →
  match tsvb imp m with
  | None => calls_for i (calls (getMetrics imp options (Fulfilled true) replies)) = []
  | Some create =>
      calls_for i (calls (getMetrics imp options (Fulfilled true) replies)) =
        [interval_call options (build_model options create)] ∨
      ∃ ci range filters,
        calls_for i (calls (getMetrics imp options (Fulfilled true) replies)) =
          [interval_call options (build_model options create);
           MakeTSVBRequest (apply_interval (build_model options create) ci)
             range filters]
  end.
Proof.
  intros Hm. simpl.
  destruct (request_projection imp options replies i m Hm) as [_ ->].
  pose proof (run_task_shapes imp options (nodeField imp options) m
                (replies_to i replies)) as Hshape.
  simpl in Hshape. destruct (tsvb imp m) as [create|]; [|by rewrite Hshape].
  destruct Hshape as [->|[(e & ->)|(ci & q & o & Hd & Hshape)]];
    [by left | by left |].
  right.
  apply dispatch_inv in Hd as [(_ & [=] & _)|(_ & _ & range & filters & [= ->])].
  exists ci, range, filters. by destruct Hshape as [-> | ->].
Qed.

Lemma calls_per_metric_witness :
  calls_for 1
    (calls (getMetrics Sample.imports (Sample.request ["cpu"; "bogus"])
              (Fulfilled true)
              [(1, IntervalReply (Fulfilled None));
               (1, TSVBReply (Fulfilled Sample.cpu_response))])) = [].
Proof.
  apply (calls_per_metric Sample.imports (Sample.request ["cpu"; "bogus"])
           [(1, IntervalReply (Fulfilled None));
            (1, TSVBReply (Fulfilled Sample.cpu_response))] 1 "bogus").
  reflexivity.
Defined.

(** X3: two executions in which the same replies reach the request of a
    metric, in the same order, leave that request in the same state after the
    same calls: neither the replies to other requests nor their failures
    change, cancel or restart it. *)
Theorem requests_do_not_interfere imp options replies replies' i m :
  metrics options !! i = Some m →
  replies_to i replies = replies_to i replies' →
  requests (getMetrics imp options (Fulfilled true) replies) !! i =
    requests (getMetrics imp options (Fulfilled true) replies') !! i ∧
  calls_for i (calls (getMetrics imp options (Fulfilled true) replies)) =
    calls_for i (calls (getMetrics imp options (Fulfilled true) replies')).
Proof.
  intros Hm Heq. simpl.
  destruct (request_projection imp options replies i m Hm) as [-> ->].
  destruct (request_projection imp options replies' i m Hm) as [-> ->].
  by rewrite Heq.
Qed.

Lemma requests_do_not_interfere_witness :
  requests (getMetrics Sample.imports (Sample.request ["cpu"; "memory"])
              (Fulfilled true)
              [(0, IntervalReply (Fulfilled None));
               (1, IntervalReply (Fulfilled None));
               (1, TSVBReply (Rejected (Error "timeout")));
               (0, TSVBReply (Fulfilled Sample.cpu_response))]) !! 0 =
    requests (getMetrics Sample.imports (Sample.request ["cpu"; "memory"])
                (Fulfilled true)
                [(0, IntervalReply (Fulfilled None));
                 (0, TSVBReply (Fulfilled Sample.cpu_response))]) !! 0 ∧
  calls_for 0
    (calls (getMetrics Sample.imports (Sample.request ["cpu"; "memory"])
              (Fulfilled true)
              [(0, IntervalReply (Fulfilled None));
               (1, IntervalReply (Fulfilled None));
               (1, TSVBReply (Rejected (Error "timeout")));
               (0, TSVBReply (Fulfilled Sample.cpu_response))])) =
    calls_for 0
      (calls (getMetrics Sample.imports (Sample.request ["cpu"; "memory"])
                (Fulfilled true)
                [(0, IntervalReply (Fulfilled None));
                 (0, TSVBReply (Fulfilled Sample.cpu_response))])).
Proof.
  apply (requests_do_not_interfere Sample.imports (Sample.request ["cpu"; "memory"])
           [(0, IntervalReply (Fulfilled None));
            (1, IntervalReply (Fulfilled None));
            (1, TSVBReply (Rejected (Error "timeout")));
            (0, TSVBReply (Fulfilled Sample.cpu_response))]
           [(0, IntervalReply (Fulfilled None));
            (0, TSVBReply (Fulfilled Sample.cpu_response))] 0 "cpu");
    reflexivity.
Defined.

(** X4: past the existence gate, the promise returned by [getMetrics] is
    pending exactly when no request has been rejected and some request is
    still waiting for a reply. *)
Theorem pending_iff_waiting imp options replies :
  returned (getMetrics imp options (Fulfilled true) replies) = None ↔
  (∀ i e, requests (getMetrics imp options (Fulfilled true) replies) !! i
          ≠ Some (Settled (Rejected e))) ∧
  ∃ i, requests (getMetrics imp options (Fulfilled true) replies) !! i
         = Some AwaitTSVB ∨
       ∃ m model, requests (getMetrics imp options (Fulfilled true) replies) !! i
                    = Some (AwaitInterval m model).
Proof.
  simpl. destruct (joined_inv_run imp options replies) as [Hlog Hj].
  set (st := run _ _ _ _) in *. split.
  - intros Hret.
    assert (joined st = None) as Hnone by by destruct (joined st) as [[?|?]|].
    rewrite Hnone in Hj.
    destruct (first_failure (settlements st)) as [[j e]|] eqn:Hff; [done |].
    pose proof (proj1 (first_failure_None _) Hff) as Hno.
    assert (∀ i e, tasks st !! i ≠ Some (Settled (Rejected e))) as Hnorej.
    { intros i e Hi%Hlog. by apply Hno in Hi. }
    split; [done |].
    destruct (all_fulfilled (tasks st)) eqn:Hall; [done |].
    apply mapM_None, Exists_exists in Hall as (t & Hin & Ht).
    apply list_elem_of_lookup in Hin as [i Hi]. exists i.
    destruct t as [m model| |[v|e]]; [eauto | eauto | done |].
    by apply Hnorej in Hi.
  - intros [Hnorej (i & Hi)].
    assert (first_failure (settlements st) = None) as Hff.
    { apply first_failure_None. intros j e Hin%Hlog. by apply Hnorej in Hin. }
    rewrite Hff in Hj.
    assert (all_fulfilled (tasks st) = None) as Hall.
    { destruct Hi as [Hi|(m & model & Hi)];
        by apply (all_fulfilled_unsettled _ _ _ Hi). }
    rewrite Hall in Hj. simpl in Hj. by rewrite Hj.
Qed.

(** X5: with an empty list of metrics and an existing node, [getMetrics] is
    fulfilled with the empty list and calls nothing but the existence check,
    whatever replies arrive. *)
Theorem no_metrics_requested imp options replies :
  metrics options = [] →
  returned (getMetrics imp options (Fulfilled true) replies) = Some (Fulfilled []) ∧
  calls (getMetrics imp options (Fulfilled true) replies) = [check_call imp options] ∧
  requests (getMetrics imp options (Fulfilled true) replies) = [].
Proof.
  intros Hms. simpl.
  assert (joined (spawn imp options (check_call imp options)) = Some (Fulfilled []))
    as Hj by (simpl; by rewrite Hms).
  rewrite (run_joined _ _ _ replies _ Hj). split_and!; [done | |].
  - destruct (trace_inv imp options replies) as (rest & -> & Hrest).
    destruct rest as [|tc rest]; [done |].
    apply Forall_cons in Hrest as [(i & m & _ & _ & Hm & _) _].
    by rewrite Hms in Hm.
  - apply length_zero_iff_nil. by rewrite run_length, spawn_length, Hms.
Qed.

Lemma no_metrics_requested_witness :
  returned (getMetrics Sample.imports (Sample.request []) (Fulfilled true)
              [(0, TSVBReply (Fulfilled Sample.cpu_response))]) =
    Some (Fulfilled []).
Proof.
  apply (no_metrics_requested Sample.imports (Sample.request [])
           [(0, TSVBReply (Fulfilled Sample.cpu_response))]).
  reflexivity.
Defined.

Lemma calculateMetricInterval_rejected modules p e :
  calculateMetricInterval modules p = Rejected e → modules ≠ [] ∧ p = Rejected e.
Proof.
  destruct modules as [|x modules]; [done |].
  destruct p as [w|e']; simpl; [done |]. by intros [= ->].
Qed.

(** X6: past the existence gate, and with responses of the declared shape
    (every key other than "type" and "uiRestrictions" holds a panel with its
    series and their points, which is what a response is in this model),
    [getMetrics] is rejected for one of five reasons only: a requested id has
    no model; a requested model is cloud-scoped and the request has no cloud
    id; the interval calculation of a requested metric failed; the query of
    a requested metric failed; or a key of a response, other than the
    reserved ones, is not an [InventoryMetricRT].  The error is the message
    of the adapter in the first, second and last case and the error of the
    collaborator in the others. *)
Theorem rejection_reasons imp options replies e :
  returned (getMetrics imp options (Fulfilled true) replies) = Some (Rejected e) →
  (∃ i m, metrics options !! i = Some m ∧ tsvb imp m = None ∧
     e = Error (missingTSVBModelError m (nodeType options))) ∨
  (∃ i m create, metrics options !! i = Some m ∧ tsvb imp m = Some create ∧
     cloudId_missing options (build_model options create) = true ∧
     e = Error (cloudIdMissingErrorMessage m (nodeId (nodeIds options)))) ∨
  (∃ i m create, metrics options !! i = Some m ∧ tsvb imp m = Some create ∧
     (i, IntervalReply (Rejected e)) ∈ replies) ∨
  (∃ i, i < length (metrics options) ∧ (i, TSVBReply (Rejected e)) ∈ replies) ∨
  (∃ i raw id, (i, TSVBReply (Fulfilled raw)) ∈ replies ∧
     id ∈ metricIds raw ∧ InventoryMetricRT_is imp id = false ∧
     e = Error (invalidInfraMetricErrorMessage id)).
Proof.
  simpl. destruct (joined _) as [[results|e']|] eqn:Hj; [| |done].
  - intros [= Hre]. do 4 right.
    unfold reshape in Hre.
    destruct (map_throwing (normalize imp) results) as [nested|e'] eqn:Hn; [done |].
    injection Hre as ->.
    apply map_throwing_rejected in Hn as (pre & raw & post & -> & _ & Hraw).
    apply map_throwing_rejected in Hraw as (ids & id & ids' & Hids & _ & Hid).
    assert (id ∈ metricIds raw) as Hin.
    { rewrite Hids, elem_of_app, elem_of_cons. auto. }
    pose proof Hin as [Hk _]%elem_of_metricIds.
    apply convert_metric_rejected in Hid as [Hunrec ->]; [|done].
    apply joined_fulfilled in Hj.
    assert (tasks (run options (nodeField imp options)
                     (spawn imp options (check_call imp options)) replies)
              !! length pre = Some (Settled (Fulfilled raw))) as Ht.
    { rewrite Hj, list_lookup_fmap, list_lookup_middle; done. }
    apply tasks_inv in Ht as (m & Hm & Hinv).
    exists (length pre), raw, id. split_and!; try done.
    destruct (tsvb imp m); [|done]. by destruct Hinv.
  - intros [= ->]. apply joined_rejected in Hj as [j Hff].
    apply first_failure_Some in Hff.
    destruct (joined_inv_run imp options replies) as [Hlog _].
    apply Hlog, tasks_inv in Hff as (m & Hm & Hinv).
    destruct (tsvb imp m) as [create|] eqn:Hcreate.
    + simpl in Hinv.
      destruct Hinv as [(p & Hin & [Hp|(_ & Hmiss & ->)])|[_ Hin]].
      * apply calculateMetricInterval_rejected in Hp as [Hreq ->].
        do 2 right. left. exists j, m, create. done.
      * right. left. exists j, m, create. done.
      * do 3 right. left. exists j. split; [by eapply lookup_lt_Some | done].
    + injection Hinv as ->. left. eauto.
Qed.

Lemma rejection_reasons_witness :
  (∃ i m, metrics (Sample.request ["cpu"]) !! i = Some m ∧
     tsvb Sample.imports m = None ∧
     Error "timeout" =
       Error (missingTSVBModelError m (nodeType (Sample.request ["cpu"])))) ∨
  (∃ i m create, metrics (Sample.request ["cpu"]) !! i = Some m ∧
     tsvb Sample.imports m = Some create ∧
     cloudId_missing (Sample.request ["cpu"])
       (build_model (Sample.request ["cpu"]) create) = true ∧
     Error "timeout" =
       Error (cloudIdMissingErrorMessage m (nodeId (nodeIds (Sample.request ["cpu"]))))) ∨
  (∃ i m create, metrics (Sample.request ["cpu"]) !! i = Some m ∧
     tsvb Sample.imports m = Some create ∧
     (i, IntervalReply (Rejected (Error "timeout")))
       ∈ [(0, IntervalReply (Rejected (Error "timeout")))]) ∨
  (∃ i, i < length (metrics (Sample.request ["cpu"])) ∧
     (i, TSVBReply (Rejected (Error "timeout")))
       ∈ [(0, IntervalReply (Rejected (Error "timeout")))]) ∨
  (∃ i raw id,
     (i, TSVBReply (Fulfilled raw)) ∈ [(0, IntervalReply (Rejected (Error "timeout")))] ∧
     id ∈ metricIds raw ∧ InventoryMetricRT_is Sample.imports id = false ∧
     Error "timeout" = Error (invalidInfraMetricErrorMessage id)).
Proof.
  apply (rejection_reasons Sample.imports (Sample.request ["cpu"])
           [(0, IntervalReply (Rejected (Error "timeout")))] (Error "timeout")).
  reflexivity.
Defined.

(** X7: when [getMetrics] is fulfilled, the ids of its entries are, in order,
    the keys other than "type" and "uiRestrictions" of the responses of the
    metrics, taken in the order of [options.metrics]: one entry per key. *)
Theorem output_ids_are_response_keys imp options replies out :
  returned (getMetrics imp options (Fulfilled true) replies) = Some (Fulfilled out) →
  ∃ results,
    requests (getMetrics imp options (Fulfilled true) replies) =
      (λ raw, Settled (Fulfilled raw)) <$> results ∧
    metric_id <$> out = concat (metricIds <$> results).
Proof.
  simpl. destruct (joined _) as [[results|e]|] eqn:Hj; [|done..].
  intros [= Hout]. apply reshape_fulfilled in Hout as (nested & Hall & ->).
  apply joined_fulfilled in Hj. exists results. split; [done |].
  clear Hj. unfold flatten. induction Hall as [|raw ds results nested Hds _ IH]; [done |].
  simpl. rewrite fmap_app, IH. f_equal. by apply (normalize_ids imp).
Qed.

Lemma output_ids_are_response_keys_witness :
  ∃ results,
    requests (getMetrics Sample.imports (Sample.request ["cpu"; "memory"])
                (Fulfilled true)
                [(1, IntervalReply (Fulfilled None));
                 (0, IntervalReply (Fulfilled (Some Sample.seconds_30)));
                 (1, TSVBReply (Fulfilled Sample.memory_response));
                 (0, TSVBReply (Fulfilled Sample.cpu_response))]) =
      (λ raw, Settled (Fulfilled raw)) <$> results ∧
    metric_id <$>
      [{| metric_id := "cpu";
          metric_series :=
            [{| series_id := "cpu"; series_label := "CPU";
                series_data :=
                  [{| timestamp := 1000; value := (1 # 2)%Q |};
                   {| timestamp := 2000; value := (3 # 5)%Q |}] |}] |};
       {| metric_id := "memory";
          metric_series :=
            [{| series_id := "memory"; series_label := "Memory";
                series_data := [{| timestamp := 1000; value := (40 # 1)%Q |}] |}] |}]
      = concat (metricIds <$> results).
Proof.
  apply (output_ids_are_response_keys Sample.imports
           (Sample.request ["cpu"; "memory"])
           [(1, IntervalReply (Fulfilled None));
            (0, IntervalReply (Fulfilled (Some Sample.seconds_30)));
            (1, TSVBReply (Fulfilled Sample.memory_response));
            (0, TSVBReply (Fulfilled Sample.cpu_response))]).
  reflexivity.
Defined.

Lemma map_throwing_ext {A B} (f g : A → outcome B) xs :
  (∀ x, x ∈ xs → f x = g x) → map_throwing f xs = map_throwing g xs.
Proof.
  induction xs as [|x xs IH]; intros Hfg; simpl; [done |].
  rewrite <- (Hfg x) by by left.
  rewrite IH; [done |]. intros y Hy. apply Hfg. by right.
Qed.

(** X8: the entries stored under "type" and "uiRestrictions" play no part in
    normalization: removing them from a response changes neither the result
    nor the error. *)
Theorem reserved_entries_ignored imp (result : TSVBResponse) :
  normalize imp (filter (λ entry, entry.1 ∉ reserved_keys) result) =
  normalize imp result.
Proof.
  unfold normalize.
  assert (metricIds (filter (λ entry, entry.1 ∉ reserved_keys) result) =
          metricIds result) as ->.
  { unfold metricIds, keys. induction result as [|[k p] rest IH]; [done |].
    rewrite fmap_cons. cbn [fst].
    destruct (decide (k ∉ reserved_keys)) as [Hk|Hk].
    - rewrite (filter_cons_True _ (k, p)) by done.
      rewrite fmap_cons. cbn [fst]. rewrite !filter_cons_True by done.
      by f_equal.
    - rewrite (filter_cons_False _ (k, p)) by done.
      by rewrite filter_cons_False. }
  apply map_throwing_ext. intros id [_ Hid]%elem_of_metricIds.
  unfold convert_metric.
  assert (get (filter (λ entry, entry.1 ∉ reserved_keys) result) id = get result id)
    as ->; [|done].
  induction result as [|[k p] rest IH]; [done |].
  destruct (decide (k ∉ reserved_keys)) as [Hk|Hk].
  - rewrite (filter_cons_True _ (k, p)) by done. cbn [get].
    destruct (String.eqb k id); [done | exact IH].
  - rewrite (filter_cons_False _ (k, p)) by done. cbn [get].
    destruct (String.eqb_spec k id) as [->|]; [|exact IH].
    exfalso. apply Hk. unfold reserved_keys.
    rewrite !elem_of_cons, elem_of_nil. tauto.
Qed.

(** ** The string log format *)

Module LoggerFacts.
Import Logger.

Lemma length_spaces n : String.length (spaces n) = n.
Proof. induction n; simpl; congruence. Qed.

Lemma length_string_app s1 s2 :
  String.length (s1 +:+ s2) = String.length s1 + String.length s2.
Proof.
  induction s1 as [|a s1 IH]; [done |].
  change (String a s1 +:+ s2) with (String a (s1 +:+ s2)).
  cbn [String.length]. rewrite IH. done.
Qed.

Lemma string_app_nil_r s : s +:+ "" = s.
Proof.
  induction s as [|a s IH]; [done |].
  change (String a s +:+ "") with (String a (s +:+ "")). by rewrite IH.
Qed.

Lemma substring_whole n s : String.length s ≤ n → String.substring 0 n s = s.
Proof.
  revert n. induction s as [|a s IH]; intros [|n] Hn; simpl in *; try done; try lia.
  f_equal. apply IH. lia.
Qed.

Lemma length_substring n s :
  n ≤ String.length s → String.length (String.substring 0 n s) = n.
Proof.
  revert n. induction s as [|a s IH]; intros [|n] Hn; simpl in *; try done; try lia.
  f_equal. apply IH. lia.
Qed.

Lemma length_pad s n : String.length (pad s n) = Nat.max n (String.length s).
Proof.
  unfold pad. case_decide as Hc; [lia |].
  rewrite !length_string_app, !length_spaces.
  assert ((n - String.length s) / 2 ≤ n - String.length s)
    by (apply Nat.Div0.div_le_upper_bound; lia).
  lia.
Qed.

Section Sorting.
Context {A : Type} (key : A → string).

Definition by_key (a b : A) : Prop := String.le (key a) (key b).

Lemma insert_by_perm x l : insert_by key x l ≡ₚ x :: l.
Proof.
  induction l as [|y l IH]; simpl; [done |].
  case_decide; [done |]. rewrite IH. apply Permutation_swap.
Qed.

Lemma sortBy_perm l : sortBy key l ≡ₚ l.
Proof.
  induction l as [|x l IH]; simpl; [done |].
  by rewrite insert_by_perm, IH.
Qed.

Lemma insert_by_sorted x l :
  StronglySorted by_key l → StronglySorted by_key (insert_by key x l).
Proof.
  induction 1 as [|y l Hl IH Hy]; simpl.
  - repeat constructor.
  - case_decide as Hxy.
    + constructor; [by constructor |]. constructor; [done |].
      eapply Forall_impl; [exact Hy |]. intros z Hz. unfold by_key in *. by etrans.
    + constructor; [done |].
      rewrite insert_by_perm. constructor; [|done].
      unfold by_key. by destruct (total String.le (key x) (key y)).
Qed.

Lemma sortBy_sorted l : StronglySorted by_key (sortBy key l).
Proof.
  induction l as [|x l IH]; simpl; [constructor | by apply insert_by_sorted].
Qed.

Lemma StronglySorted_lookup (R : relation A) l i j a b :
  StronglySorted R l → i < j → l !! i = Some a → l !! j = Some b → R a b.
Proof.
  intros Hl. revert i j. induction Hl as [|x l Hl IH Hx]; intros i j Hij Hi Hj; [done |].
  destruct j as [|j]; [lia |]. simpl in Hj. destruct i as [|i]; simpl in Hi.
  - injection Hi as ->. eapply Forall_forall; [exact Hx |].
    by eapply list_elem_of_lookup_2.
  - eapply (IH i j); [lia | done | done].
Qed.
End Sorting.

Lemma tag_key_rank ac a b :
  String.le (tag_key ac a) (tag_key ac b) →
  rank ac a ≤ rank ac b ∧ (rank ac a = rank ac b → String.le a b).
Proof.
  unfold tag_key, rank.
  destruct (color ac a), (color ac b);
    repeat case_bool_decide; cbv [String.append];
    unfold String.le, String.leb; simpl; intros Hle; try done;
    split; try lia.
Qed.

Lemma tag_key_inj ac : Inj (=) (=) (tag_key ac).
Proof.
  intros a b. unfold tag_key.
  destruct (color ac a), (color ac b);
    repeat case_bool_decide; cbv [String.append]; congruence.
Qed.

(** X9: the text [type] prints for a log type is always exactly 7 characters
    wide before it is coloured: a shorter type is centred between spaces, the
    left side getting the smaller half, and a longer one is cut after its
    seventh character. *)
Theorem type_column_width ac t :
  ∃ text,
    type ac t = paint (color ac t) text ∧
    String.length text = 7 ∧
    (String.length t ≤ 7 →
     text =
       spaces ((7 - String.length t) / 2) +:+ t +:+
       spaces ((7 - String.length t) - (7 - String.length t) / 2)) ∧
    (7 ≤ String.length t → text = slice0 7 t).
Proof.
  exists (slice0 7 (pad t 7)). split; [done |].
  unfold slice0. split_and!.
  - rewrite length_substring; [done |]. rewrite length_pad. lia.
  - intros Hle. rewrite substring_whole by (rewrite length_pad; lia).
    unfold pad. case_decide as Hc; [|done].
    assert (String.length t = 7) as -> by lia.
    change (t = "" +:+ t +:+ ""). by rewrite string_app_nil_r.
  - intros Hge. unfold pad. by rewrite decide_True by lia.
Qed.

Lemma string_app_assoc s1 s2 s3 : (s1 +:+ s2) +:+ s3 = s1 +:+ s2 +:+ s3.
Proof.
  induction s1 as [|a s1 IH]; [done |].
  change ((String a s1 +:+ s2) +:+ s3) with (String a ((s1 +:+ s2) +:+ s3)).
  change (String a s1 +:+ s2 +:+ s3) with (String a (s1 +:+ s2 +:+ s3)).
  by rewrite IH.
Qed.

Lemma foldl_append (f : string → string) acc (l : list string) :
  foldl (λ s t, s +:+ f t) acc l = acc +:+ foldr (λ t s, f t +:+ s) "" l.
Proof.
  revert acc. induction l as [|t l IH]; intros acc; simpl.
  - by rewrite string_app_nil_r.
  - by rewrite IH, string_app_assoc.
Qed.

(** X10: in the line [format] prints, the tags stand in brackets, each in its
    colour, between the time and the message, in the order of their sort
    keys: no tag is lost or added, the statuses that have a colour come
    first, then the other tags that have a colour, then the tags without
    one, and the tags of one class are in ascending order. *)
Theorem tags_sorted_by_class ac worker extract data :
  format ac worker extract data =
    workerType ac worker +:+ type ac (log_type data) +:+ " [" +:+
    paint (color ac "time") (extract data "HH:mm:ss.SSS") +:+ "] " +:+
    foldr (λ t s, "[" +:+ paint (color ac t) t +:+ "]" +:+ s) ""
      (sortBy (tag_key ac) (log_tags data)) +:+
    " " +:+
    match log_error data with
    | Some stack => paint (color ac "error") stack
    | None => paint (color ac "message") (log_message data)
    end ∧
  sortBy (tag_key ac) (log_tags data) ≡ₚ log_tags data ∧
  ∀ i j a b, i < j →
    sortBy (tag_key ac) (log_tags data) !! i = Some a →
    sortBy (tag_key ac) (log_tags data) !! j = Some b →
    rank ac a ≤ rank ac b ∧ (rank ac a = rank ac b → String.le a b).
Proof.
  split_and!.
  - unfold format, format_tags.
    rewrite (foldl_append (λ t, "[" +:+ paint (color ac t) t +:+ "]")).
    assert (∀ l : list string,
              foldr (λ t s, ("[" +:+ paint (color ac t) t +:+ "]") +:+ s) "" l =
              foldr (λ t s, "[" +:+ paint (color ac t) t +:+ "]" +:+ s) "" l) as ->.
    { induction l as [|t l IH]; simpl; [done |].
      by rewrite IH, !string_app_assoc. }
    done.
  - apply sortBy_perm.
  - intros i j a b Hij Hi Hj. apply tag_key_rank.
    by apply (StronglySorted_lookup (by_key (tag_key ac)) _ i j a b
                (sortBy_sorted (tag_key ac) (log_tags data))).
Qed.

Lemma tags_sorted_by_class_witness :
  format (λ c, Some (λ s, c +:+ ":" +:+ s)) None (λ _ _, "12:00:00.000")
    {| log_type := "log"; log_tags := ["custom"; "listening"; "info"];
       log_error := None; log_message := "Server running";
       log_timestamp := 0 |} =
  "blue:  log   [12:00:00.000] [green:info][magenta:listening][custom] Server running".
Proof.
  rewrite (proj1 (tags_sorted_by_class (λ c, Some (λ s, c +:+ ":" +:+ s)) None
                    (λ _ _, "12:00:00.000")
                    {| log_type := "log"; log_tags := ["custom"; "listening"; "info"];
                       log_error := None; log_message := "Server running";
                       log_timestamp := 0 |})).
  reflexivity.
Defined.

Lemma sortBy_tags_perm ac tags tags' :
  tags ≡ₚ tags' → sortBy (tag_key ac) tags = sortBy (tag_key ac) tags'.
Proof.
  intros Hperm.
  apply (StronglySorted_unique_strong (by_key (tag_key ac))).
  - intros a b _ _ Hab Hba. apply (tag_key_inj ac).
    by apply (anti_symm String.le).
  - apply sortBy_sorted.
  - apply sortBy_sorted.
  - by rewrite !sortBy_perm.
Qed.

(** X11: the line [format] prints does not depend on the order in which the
    tags of the event are given. *)
Theorem format_ignores_tag_order ac worker extract data tags :
  tags ≡ₚ log_tags data →
  extract (with_tags data tags) "HH:mm:ss.SSS" = extract data "HH:mm:ss.SSS" →
  format ac worker extract (with_tags data tags) = format ac worker extract data.
Proof.
  intros Hperm Htime. unfold format, format_tags. simpl.
  by rewrite Htime, (sortBy_tags_perm ac tags (log_tags data) Hperm).
Qed.

Lemma format_ignores_tag_order_witness :
  format (λ _, None) None (λ _ _, "12:00:00.000")
    (with_tags
       {| log_type := "log"; log_tags := ["listening"; "info"; "custom"];
          log_error := None; log_message := "Server running";
          log_timestamp := 0 |}
       ["custom"; "listening"; "info"]) =
  format (λ _, None) None (λ _ _, "12:00:00.000")
    {| log_type := "log"; log_tags := ["listening"; "info"; "custom"];
       log_error := None; log_message := "Server running";
       log_timestamp := 0 |}.
Proof.
  apply (format_ignores_tag_order (λ _, None) None (λ _ _, "12:00:00.000")
           {| log_type := "log"; log_tags := ["listening"; "info"; "custom"];
              log_error := None; log_message := "Server running";
              log_timestamp := 0 |}
           ["custom"; "listening"; "info"]).
  - simpl. apply (Permutation_cons_append ["listening"; "info"] "custom").
  - reflexivity.
Defined.

End LoggerFacts.
